(** * Ephemeral scratchpad/todo server: session store and TONL encoder

    A shallow embedding of [src/storage/InMemorySessionStore.ts],
    [src/storage/types.ts] and [src/utils/tonl.ts], with the properties of
    the store (TTL, identity binding, id generation, sweep) and of the
    tabular encoder proved over it.

    Conventions of the embedding.
    - A JavaScript [Date] is its [getTime()] value: milliseconds as [Z].
    - [Date.now()] / [new Date()] is the explicit argument [now]: one store
      operation is modelled at one clock reading.
    - [nanoid(n)] is an oracle [nanoid : nat -> string]; [nanoid k] is the
      (k+1)-th identifier drawn during one call of [generateUniqueId].
    - The private field [sessions : Map<string, Session>] is a
      [gmap string Session.t]; every method is a computation in the
      state-and-exception monad [M] over that map.
    - [ttlMs] is an integer number of milliseconds.  Ages are differences
      of integer clock readings, so for a fractional [ttlMs] the test
      [age > ttlMs] is the test against its integer part.
    - Calls do not interleave: a method runs to completion before the next
      one starts.  Timers ([startCleanup], [stopCleanup]) and logging are
      left out.
    - Strings are [string]s of 8-bit code units. *)

From Stdlib Require Import ZArith Ascii String Decimal DecimalString.
From stdpp Require Import gmap strings list fin_maps.

Local Open Scope Z_scope.
Local Open Scope string_scope.

(** ** Data model ([src/storage/types.ts]) *)

Inductive TodoStatus : Set := Pending | Done.

Module Todo.
Record t : Set := mk {
  id : string;
  title : string;
  description : string;
  tags : list string;
  status : TodoStatus;
  createdAt : Z
}.
End Todo.

Module Session.
Record t : Set := mk {
  id : string;
  userId : option string;        (* [userId?: string] *)
  scratchpad : string;
  todos : list Todo.t;
  createdAt : Z;
  lastModified : Z
}.
End Session.

(** [Partial<Omit<Session, "id" | "createdAt">>]: each remaining key may be
    present or not.  [userId] is itself optional in [Session], so a present
    key carries [undefined] ([Some None]) or a string ([Some (Some u)]);
    a present [scratchpad], [todos] or [lastModified] carries a value of the
    field's type. *)
Module Updates.
Record t : Set := mk {
  userId : option (option string);
  scratchpad : option string;
  todos : option (list Todo.t);
  lastModified : option Z
}.
End Updates.

(** The three kinds of exception the store throws.  [PlainError] is the
    unnamed [new Error(message)] of [generateUniqueId]. *)
Inductive StoreError : Set :=
| SessionNotFoundError (sessionId : string)
| UserIdMismatchError (sessionId : string)
| PlainError (message : string).

Inductive Outcome (A : Type) : Type :=
| Returned (a : A)
| Thrown (e : StoreError).
Arguments Returned {A} a.
Arguments Thrown {A} e.

Module InMemorySessionStore.

(** *** The monad of store methods *)

Definition M (A : Type) : Type :=
  gmap string Session.t -> Outcome A * gmap string Session.t.

Definition ret {A} (a : A) : M A := fun st => (Returned a, st).

Definition throw {A} (e : StoreError) : M A := fun st => (Thrown e, st).

Definition bind {A B} (m : M A) (k : A -> M B) : M B :=
  fun st =>
    match m st with
    | (Returned a, st') => k a st'
    | (Thrown e, st') => (Thrown e, st')
    end.

Notation "'let*' x ':=' m 'in' k" := (bind m (fun x => k))
  (at level 10, x name, m at level 100, k at level 200).
Notation "m ';;' k" := (bind m (fun _ => k))
  (at level 100, k at level 200, right associativity).

(** [this.sessions.get], [.set], [.delete], [.size]. *)
Definition sessions_get (sessionId : string) : M (option Session.t) :=
  fun st => (Returned (st !! sessionId), st).

Definition sessions_set (sessionId : string) (session : Session.t) : M unit :=
  fun st => (Returned tt, <[sessionId := session]> st).

Definition sessions_delete (sessionId : string) : M unit :=
  fun st => (Returned tt, base.delete sessionId st).

Definition sessions_size : M nat :=
  fun st => (Returned (size st), st).

Definition maxAttempts : nat := 10.

Definition exhaustedMessage : string :=
  "Failed to generate unique session ID after maximum attempts".

Section Store.

(** [private readonly ttlMs: number], fixed by the constructor. *)
Variable ttlMs : Z.

(** [isExpired]: [now - lastModified > ttlMs], a strict comparison. *)
Definition isExpired (now : Z) (session : Session.t) : bool :=
  let sessionAge := now - Session.lastModified session in
  Z.gtb sessionAge ttlMs.

(** [validateUserId]: throws only for a session that carries a [userId]. *)
Definition validateUserId (session : Session.t) (userId : option string)
  : M unit :=
  match Session.userId session with
  | Some owner =>
    match userId with
    | None => throw (UserIdMismatchError (Session.id session))
    | Some u =>
      if decide (owner = u) then ret tt
      else throw (UserIdMismatchError (Session.id session))
    end
  | None => ret tt
  end.

Definition get (now : Z) (sessionId : string) (userId : option string)
  : M (option Session.t) :=
  let* found := sessions_get sessionId in
  match found with
  | None => ret None
  | Some session =>
    if isExpired now session
    then sessions_delete sessionId ;; ret None
    else validateUserId session userId ;; ret (Some session)
  end.

(** [{ ...session, ...updates, lastModified: new Date() }] *)
Definition applyUpdates (now : Z) (session : Session.t) (updates : Updates.t)
  : Session.t :=
  {| Session.id := Session.id session;
     Session.userId := default (Session.userId session) (Updates.userId updates);
     Session.scratchpad :=
       default (Session.scratchpad session) (Updates.scratchpad updates);
     Session.todos := default (Session.todos session) (Updates.todos updates);
     Session.createdAt := Session.createdAt session;
     Session.lastModified := now |}.

Definition update (now : Z) (sessionId : string) (updates : Updates.t)
    (userId : option string) : M unit :=
  let* found := get now sessionId userId in
  match found with
  | None => throw (SessionNotFoundError sessionId)
  | Some session => sessions_set sessionId (applyUpdates now session updates)
  end.

Definition delete (now : Z) (sessionId : string) (userId : option string)
  : M unit :=
  let* found := get now sessionId userId in
  match found with
  | None => throw (SessionNotFoundError sessionId)
  | Some _ => sessions_delete sessionId
  end.

Definition exists_ (now : Z) (sessionId : string) : M bool :=
  let* found := sessions_get sessionId in
  match found with
  | None => ret false
  | Some session =>
    if isExpired now session
    then sessions_delete sessionId ;; ret false
    else ret true
  end.

Definition count : M nat := sessions_size.

(** [cleanup]: one pass over the entries, deleting the expired ones and
    counting them.  Deleting the entry being visited does not disturb the
    iteration of a JavaScript [Map], so the pass visits every entry of the
    map it started from; the result does not depend on the order. *)
Definition cleanupStep (now : Z) (sessionId : string) (session : Session.t)
    (acc : gmap string Session.t * nat) : gmap string Session.t * nat :=
  if isExpired now session
  then (base.delete sessionId acc.1, S acc.2)
  else acc.

Definition cleanup (now : Z) : M nat :=
  fun st =>
    let '(st', cleanedCount) := map_fold (cleanupStep now) (st, O) st in
    (Returned cleanedCount, st').

(** [generateUniqueId]: the do-while loop.  [attempts] is the counter of the
    source; [fuel] bounds the iterations and is never exhausted when it
    starts at [S maxAttempts] (lemma [generateUniqueId_loop_fuel]). *)
Fixpoint generateUniqueId_loop (fuel : nat) (now : Z) (nanoid : nat -> string)
    (attempts : nat) : M string :=
  match fuel with
  | O => throw (PlainError exhaustedMessage)
  | S fuel' =>
    let id := nanoid attempts in
    let attempts := S attempts in
    if (maxAttempts <? attempts)%nat
    then throw (PlainError exhaustedMessage)
    else
      let* taken := exists_ now id in
      if taken then generateUniqueId_loop fuel' now nanoid attempts
      else ret id
  end.

Definition generateUniqueId (now : Z) (nanoid : nat -> string) : M string :=
  generateUniqueId_loop (S maxAttempts) now nanoid O.

Definition newSession (now : Z) (id : string) (userId : option string)
  : Session.t :=
  {| Session.id := id;
     Session.userId := userId;
     Session.scratchpad := "";
     Session.todos := [];
     Session.createdAt := now;
     Session.lastModified := now |}.

Definition create (now : Z) (nanoid : nat -> string) (userId : option string)
  : M Session.t :=
  let* id := generateUniqueId now nanoid in
  let session := newSession now id userId in
  sessions_set id session ;;
  ret session.

End Store.

End InMemorySessionStore.

(** ** Sequences of store operations

    A caller's view of the store: a trace of method calls, each at its own
    clock reading.  [step] keeps the map a call leaves behind, whether the
    call returned or threw. *)
Module StoreTrace.
Import InMemorySessionStore.

Inductive Op : Type :=
| Create (nanoid : nat -> string) (userId : option string)
| Get (sessionId : string) (userId : option string)
| Update (sessionId : string) (updates : Updates.t) (userId : option string)
| Delete (sessionId : string) (userId : option string)
| Exists (sessionId : string)
| Count
| Cleanup.

Definition step (ttlMs now : Z) (op : Op) (st : gmap string Session.t)
  : gmap string Session.t :=
  match op with
  | Create nanoid userId => (create ttlMs now nanoid userId st).2
  | Get sessionId userId => (get ttlMs now sessionId userId st).2
  | Update sessionId updates userId =>
    (update ttlMs now sessionId updates userId st).2
  | Delete sessionId userId => (delete ttlMs now sessionId userId st).2
  | Exists sessionId => (exists_ ttlMs now sessionId st).2
  | Count => (count st).2
  | Cleanup => (cleanup ttlMs now st).2
  end.

(** The owner each id was given by the latest [create] that returned it:
    a ghost log kept next to the store. *)
Definition logStep (ttlMs now : Z) (op : Op) (st : gmap string Session.t)
    (log : gmap string (option string)) : gmap string (option string) :=
  match op with
  | Create nanoid userId =>
    match (create ttlMs now nanoid userId st).1 with
    | Returned session => <[Session.id session := userId]> log
    | Thrown _ => log
    end
  | _ => log
  end.

Fixpoint run (ttlMs : Z) (trace : list (Z * Op))
    (c : gmap string Session.t * gmap string (option string))
  : gmap string Session.t * gmap string (option string) :=
  match trace with
  | [] => c
  | (now, op) :: rest =>
    run ttlMs rest (step ttlMs now op c.1, logStep ttlMs now op c.1 c.2)
  end.

(** An [update] whose partial fields carry the key [userId]. *)
Definition suppliesUserId (op : Op) : bool :=
  match op with
  | Update _ updates _ => bool_decide (is_Some (Updates.userId updates))
  | _ => false
  end.

(** Every stored record carries the owner its id was created with. *)
Definition boundAsCreated (st : gmap string Session.t)
    (log : gmap string (option string)) : Prop :=
  forall sessionId session,
    st !! sessionId = Some session ->
    log !! sessionId = Some (Session.userId session).

(** Every record is stored under its own [id]. *)
Definition wellKeyed (st : gmap string Session.t) : Prop :=
  forall sessionId session,
    st !! sessionId = Some session -> Session.id session = sessionId.

End StoreTrace.

(** ** The TONL encoder ([src/utils/tonl.ts]) *)
Module Tonl.

Definition tab : ascii := "009"%char.
Definition newline : ascii := "010"%char.
Definition backslash : ascii := "\"%char.
Definition pipe : ascii := "|"%char.

(** [value.replace(/c/g, replacement)] for a one-character pattern [c]. *)
Fixpoint replaceAll (c : ascii) (replacement value : string) : string :=
  match value with
  | EmptyString => EmptyString
  | String a rest =>
    if Ascii.eqb a c
    then replacement +:+ replaceAll c replacement rest
    else String a (replaceAll c replacement rest)
  end.

(** The four passes of [escapeValue], in the order of the source. *)
Definition escapeValue (value : string) : string :=
  replaceAll pipe "\|"
    (replaceAll newline "\n"
      (replaceAll tab "\t"
        (replaceAll backslash "\\" value))).

(** [s.split(c)[0]]: the part of [s] before the first [c]. *)
Fixpoint beforeFirst (c : ascii) (s : string) : string :=
  match s with
  | EmptyString => EmptyString
  | String a rest =>
    if Ascii.eqb a c then EmptyString else String a (beforeFirst c rest)
  end.

Definition formatTags (tags : list string) : string :=
  match tags with
  | [] => "[]"
  | _ => "[" +:+ String.concat "," tags +:+ "]"
  end.

Definition statusString (status : TodoStatus) : string :=
  match status with
  | Pending => "pending"
  | Done => "done"
  end.

Fixpoint spaces (n : nat) : string :=
  match n with
  | O => EmptyString
  | S n' => String " " (spaces n')
  end.

(** [value.padEnd(width)] *)
Definition padEnd (value : string) (width : nat) : string :=
  value +:+ spaces (width - String.length value).

(** Template interpolation of an array length. *)
Definition numberToString (n : nat) : string :=
  NilZero.string_of_uint (Nat.to_uint n).

Definition lf : string := String newline EmptyString.

Definition columns : list string :=
  ["id"; "title"; "status"; "tags"; "createdAt"].

Section Encoder.

(** [Date.prototype.toISOString], a builtin of the host. *)
Variable toISOString : Z -> string.

Definition formatDate (date : Z) : string :=
  beforeFirst "T" (toISOString date).

Definition getTodoValues (todo : Todo.t) : gmap string string :=
  list_to_map
    [ ("id", Todo.id todo);
      ("title", escapeValue (Todo.title todo));
      ("description", escapeValue (Todo.description todo));
      ("status", statusString (Todo.status todo));
      ("tags", formatTags (Todo.tags todo));
      ("createdAt", formatDate (Todo.createdAt todo)) ].

Definition calculateColumnWidths (todos : list Todo.t) (columns : list string)
  : gmap string nat :=
  let widths :=
    foldl (fun widths col => <[col := String.length col]> widths) ∅ columns in
  foldl
    (fun widths todo =>
       let values := getTodoValues todo in
       foldl
         (fun widths col =>
            let value := default "" (values !! col) in
            let currentWidth := default O (widths !! col) in
            <[col := Nat.max currentWidth (String.length value)]> widths)
         widths columns)
    widths todos.

Definition encodeRow (widths : gmap string nat) (todo : Todo.t) : string :=
  let values := getTodoValues todo in
  String.concat "   "
    (map
       (fun col =>
          let value := default "" (values !! col) in
          let width := default (String.length value) (widths !! col) in
          padEnd value width)
       columns).

Definition encodeTodosToTonl (todos : list Todo.t) : string :=
  match todos with
  | [] => "[0]{id, title, status, tags, createdAt}"
  | _ =>
    let widths := calculateColumnWidths todos columns in
    let header :=
      "[" +:+ numberToString (length todos) +:+ "]{"
          +:+ String.concat ", " columns +:+ "}" in
    let rows := map (encodeRow widths) todos in
    String.concat lf (header :: rows)
  end.


End Encoder.

(** Number of occurrences of the code unit [c] in [s]. *)
Fixpoint occurrences (c : ascii) (s : string) : nat :=
  match s with
  | EmptyString => O
  | String a rest =>
    (if Ascii.eqb a c then 1 else 0)%nat + occurrences c rest
  end.


(** One pass over the code units that does what the four passes of
    [escapeValue] do together (lemma [escapeValue_cons]). *)
Definition escapeUnit (a : ascii) : string :=
  if Ascii.eqb a backslash then "\\"
  else if Ascii.eqb a tab then "\t"
  else if Ascii.eqb a newline then "\n"
  else if Ascii.eqb a pipe then "\|"
  else String a EmptyString.



(** Fixtures of the encoder tests: every date prints as 2025-01-18. *)
Definition isoJan18 (date : Z) : string := "2025-01-18T10:00:00.000Z".

Definition todoWithSpecialChars : Todo.t :=
  {| Todo.id := "todo-special";
     Todo.title :=
       "Task with" +:+ lf +:+ "newline and" +:+ String tab "tab";
     Todo.description := "Has | pipe";
     Todo.tags := ["tag1"; "tag2"];
     Todo.status := Pending;
     Todo.createdAt := 0 |}.

Definition readmeTodos : list Todo.t :=
  [ {| Todo.id := "abc123"; Todo.title := "Task 1"; Todo.description := "";
       Todo.tags := ["backend"]; Todo.status := Done; Todo.createdAt := 0 |};
    {| Todo.id := "def456"; Todo.title := "Task 2"; Todo.description := "";
       Todo.tags := []; Todo.status := Pending; Todo.createdAt := 0 |} ].

End Tonl.

(** ** Vocabulary of the store properties *)
Module StoreView.
Import InMemorySessionStore.

(** Specification-side vocabulary: the stored records that are expired,
    and those that are live, at a given instant. *)
Definition expiredSessions (ttlMs now : Z) (st : gmap string Session.t)
  : gmap string Session.t :=
  filter (fun kv => isExpired ttlMs now kv.2 = true) st.

Definition liveSessions (ttlMs now : Z) (st : gmap string Session.t)
  : gmap string Session.t :=
  filter (fun kv => ¬ isExpired ttlMs now kv.2 = true) st.

(** A candidate id collides when it names a live record. *)
Definition isLive (ttlMs now : Z) (st : gmap string Session.t)
    (sessionId : string) : bool :=
  match st !! sessionId with
  | Some session => negb (isExpired ttlMs now session)
  | None => false
  end.

(** A call of [get] has one of four shapes. *)
Inductive GetCase (ttlMs now : Z) (sessionId : string)
    (userId : option string) (st : gmap string Session.t)
  : Outcome (option Session.t) * gmap string Session.t -> Prop :=
| GetAbsent :
    st !! sessionId = None ->
    GetCase ttlMs now sessionId userId st (Returned None, st)
| GetExpired session :
    st !! sessionId = Some session ->
    isExpired ttlMs now session = true ->
    GetCase ttlMs now sessionId userId st
      (Returned None, base.delete sessionId st)
| GetMismatch session owner :
    st !! sessionId = Some session ->
    isExpired ttlMs now session = false ->
    Session.userId session = Some owner ->
    userId <> Some owner ->
    GetCase ttlMs now sessionId userId st
      (Thrown (UserIdMismatchError (Session.id session)), st)
| GetFound session :
    st !! sessionId = Some session ->
    isExpired ttlMs now session = false ->
    (Session.userId session = None \/ Session.userId session = userId) ->
    GetCase ttlMs now sessionId userId st (Returned (Some session), st).

(** A store holding one session, created at time 0 and not touched since:
    without an owner ([anonStore]) or owned by ["u1"] ([ownedStore]). *)
Definition anonSession : Session.t := newSession 0 "s1" None.
Definition ownedSession : Session.t := newSession 0 "s1" (Some "u1").
Definition anonStore : gmap string Session.t := {[ "s1" := anonSession ]}.
Definition ownedStore : gmap string Session.t := {[ "s1" := ownedSession ]}.

Definition scratchpadOnly (content : string) : Updates.t :=
  {| Updates.userId := None;
     Updates.scratchpad := Some content;
     Updates.todos := None;
     Updates.lastModified := None |}.

Definition ownerOnly (owner : option string) : Updates.t :=
  {| Updates.userId := Some owner;
     Updates.scratchpad := None;
     Updates.todos := None;
     Updates.lastModified := None |}.

End StoreView.

(** ** The rest of the store class and of the encoder *)

(** [InMemorySessionStore.clear], and the vocabulary of the properties of
    traces with a running clock. *)
Module StoreRest.
Import InMemorySessionStore StoreTrace.

(** [clear]: [this.sessions.clear()]. *)
Definition clear : M unit := fun _ => (Returned tt, ∅).

(** Every stored record was created no later than it was last modified,
    and last modified no later than [bound]. *)
Definition timesOrdered (bound : Z) (st : gmap string Session.t) : Prop :=
  forall sessionId session,
    st !! sessionId = Some session ->
    Session.createdAt session <= Session.lastModified session
    /\ Session.lastModified session <= bound.

(** The clock readings of a trace never go back, starting from [start]. *)
Fixpoint clockFrom (start : Z) (trace : list (Z * Op)) : Prop :=
  match trace with
  | [] => True
  | (now, _) :: rest => start <= now /\ clockFrom now rest
  end.

(** The last clock reading of a trace ([start] for the empty trace). *)
Fixpoint lastReading (start : Z) (trace : list (Z * Op)) : Z :=
  match trace with
  | [] => start
  | (now, _) :: rest => lastReading now rest
  end.

End StoreRest.

(** The two other encoders of [src/utils/tonl.ts], and the vocabulary of
    the properties of the table. *)
Module TonlRest.
Import Tonl.

Definition encodeScratchpadToTonl (sessionId content : string) : string :=
  let lines :=
    [ "{sessionId, contentLength, content}";
      "sessionId: " +:+ sessionId;
      "contentLength: " +:+ numberToString (String.length content);
      "content:";
      content ] in
  String.concat lf lines.

Section Encoders.

Variable toISOString : Z -> string.

Definition encodeSessionToTonl (session : Session.t) : string :=
  let lines :=
    [ "{id, userId, scratchpadLength, todoCount, createdAt, lastModified}";
      "id: " +:+ Session.id session;
      "userId: " +:+ default "(none)" (Session.userId session);
      "scratchpadLength: "
        +:+ numberToString (String.length (Session.scratchpad session));
      "todoCount: " +:+ numberToString (length (Session.todos session));
      "createdAt: " +:+ formatDate toISOString (Session.createdAt session);
      "lastModified: "
        +:+ formatDate toISOString (Session.lastModified session) ] in
  String.concat lf lines.

(** The text of column [col] in the row of [todo]:
    [values.get(col) ?? ""]. *)
Definition cell (col : string) (todo : Todo.t) : string :=
  default "" (getTodoValues toISOString todo !! col).

(** The widest of the header [col] and of its cells in [todos]. *)
Definition columnWidth (col : string) (todos : list Todo.t) : nat :=
  foldl (fun width todo => Nat.max width (String.length (cell col todo)))
    (String.length col) todos.

End Encoders.

(** Number of code units of [value] that [escapeValue] rewrites. *)
Definition specialUnits (value : string) : nat :=
  (occurrences backslash value + occurrences tab value
   + occurrences newline value + occurrences pipe value)%nat.

(** Two todos that differ at most in their description. *)
Definition sameButDescription (a b : Todo.t) : Prop :=
  Todo.id a = Todo.id b
  /\ Todo.title a = Todo.title b
  /\ Todo.tags a = Todo.tags b
  /\ Todo.status a = Todo.status b
  /\ Todo.createdAt a = Todo.createdAt b.

End TonlRest.

(** ** The response encoder ([src/utils/encoder.ts])

    The tool handlers use the encoder through its methods only, so
    [ResponseEncoder] is the record of those methods.  [tonlEncoder] is the
    class with [format = "tonl"]; the other format goes through
    [JSON.stringify] and is not embedded. *)
Module Encoder.
Import Tonl TonlRest.

(** The values the handlers put in the [data] of [encodeSuccess]. *)
Inductive DataValue : Set :=
| DataString (s : string)
| DataNumber (n : nat).

(** [String(value)] *)
Definition toStringValue (value : DataValue) : string :=
  match value with
  | DataString s => s
  | DataNumber n => numberToString n
  end.

(** [data]: the entries of the object in insertion order (its keys are not
    array indices), or [None] when the argument is left out. *)
Record ResponseEncoder : Type := {
  encodeSession : Session.t -> string;
  encodeScratchpad : string -> string -> string;
  encodeSuccess : string -> option (list (string * DataValue)) -> string;
  encodeError : string -> option string -> string
}.

(** [if (code)]: a string is truthy when it is present and not empty. *)
Definition truthy (code : option string) : bool :=
  match code with
  | Some (String _ _) => true
  | _ => false
  end.

Definition encodeSuccessTonl (message : string)
    (data : option (list (string * DataValue))) : string :=
  let lines := ["{success, message}"; "success: true"; "message: " +:+ message] in
  let lines :=
    match data with
    | Some entries =>
      (lines ++ map (fun entry => entry.1 +:+ ": " +:+ toStringValue entry.2)
                    entries)%list
    | None => lines
    end in
  String.concat lf lines.

Definition encodeErrorTonl (error : string) (code : option string) : string :=
  let lines := ["{error, code}"; "error: " +:+ error] in
  let lines :=
    if truthy code
    then (lines ++ ["code: " +:+ default "" code])%list
    else lines in
  String.concat lf lines.

Definition tonlEncoder (toISOString : Z -> string) : ResponseEncoder :=
  {| encodeSession := encodeSessionToTonl toISOString;
     encodeScratchpad := encodeScratchpadToTonl;
     encodeSuccess := encodeSuccessTonl;
     encodeError := encodeErrorTonl |}.

End Encoder.

(** ** The tool handlers ([src/tools/session.ts], [src/tools/scratchpad.ts])

    [context.store] is the store of the monad [M]; the rest of the context
    is the encoder and the caller's identity. *)
Module Tools.
Import InMemorySessionStore Encoder.

Record ToolContext : Type := {
  encoder : ResponseEncoder;
  userId : option string
}.

(** [try { body } catch (error) { handler }] *)
Definition tryCatch {A} (body : M A) (handler : StoreError -> M A) : M A :=
  fun st =>
    match body st with
    | (Returned a, st') => (Returned a, st')
    | (Thrown e, st') => handler e st'
    end.

Definition sessionNotFound (context : ToolContext) (session_id : string)
  : string :=
  encodeError (encoder context) ("Session not found: " +:+ session_id)
    (Some "SESSION_NOT_FOUND").

Definition userIdMismatch (context : ToolContext) : string :=
  encodeError (encoder context) "User ID mismatch - access denied"
    (Some "USER_ID_MISMATCH").

Section Handlers.

Variable ttlMs : Z.

Definition initSession (now : Z) (nanoid : nat -> string)
    (context : ToolContext) : M string :=
  let* session := create ttlMs now nanoid (userId context) in
  ret (encodeSession (encoder context) session).

Definition readScratchpad (now : Z) (session_id : string)
    (context : ToolContext) : M string :=
  tryCatch
    (let* session := get ttlMs now session_id (userId context) in
     match session with
     | None => ret (sessionNotFound context session_id)
     | Some session =>
       ret (encodeScratchpad (encoder context) (Session.id session)
              (Session.scratchpad session))
     end)
    (fun error =>
       match error with
       | UserIdMismatchError _ => ret (userIdMismatch context)
       | _ => throw error
       end).

Definition writeScratchpad (now : Z) (session_id content : string)
    (context : ToolContext) : M string :=
  tryCatch
    (update ttlMs now session_id
       {| Updates.userId := None;
          Updates.scratchpad := Some content;
          Updates.todos := None;
          Updates.lastModified := None |}
       (userId context) ;;
     ret (encodeSuccess (encoder context) "Scratchpad updated successfully"
            (Some [ ("session_id", DataString session_id);
                    ("content_length", DataNumber (String.length content)) ])))
    (fun error =>
       match error with
       | SessionNotFoundError _ => ret (sessionNotFound context session_id)
       | UserIdMismatchError _ => ret (userIdMismatch context)
       | _ => throw error
       end).

End Handlers.

End Tools.

(** * Properties of the session store *)
Module StoreFacts.
Import InMemorySessionStore StoreView.

Ltac unfold_store :=
  unfold update, InMemorySessionStore.delete, get, exists_, count,
    validateUserId, sessions_get, sessions_set, sessions_delete,
    sessions_size, bind, ret, throw in *;
  simpl in *.

Section Facts.

Variable ttlMs : Z.

Implicit Types (st : gmap string Session.t) (session : Session.t).
Implicit Types (sessionId : string) (userId : option string) (now : Z).

Lemma isExpired_gt now session :
  isExpired ttlMs now session = true <->
  ttlMs < now - Session.lastModified session.
Proof. unfold isExpired; simpl. rewrite Z.gtb_gt. lia. Qed.

Lemma isExpired_le now session :
  isExpired ttlMs now session = false <->
  now - Session.lastModified session <= ttlMs.
Proof.
  unfold isExpired; simpl. rewrite Z.gtb_ltb, Z.ltb_ge. reflexivity.
Qed.

(** *** [validateUserId] *)

Lemma validateUserId_unbound session userId st :
  Session.userId session = None ->
  validateUserId session userId st = (Returned tt, st).
Proof. intros H. unfold validateUserId. rewrite H. reflexivity. Qed.

Lemma validateUserId_match session owner st :
  Session.userId session = Some owner ->
  validateUserId session (Some owner) st = (Returned tt, st).
Proof.
  intros H. unfold validateUserId. rewrite H.
  destruct (decide (owner = owner)); [reflexivity | congruence].
Qed.

Lemma validateUserId_mismatch session owner userId st :
  Session.userId session = Some owner ->
  userId <> Some owner ->
  validateUserId session userId st
  = (Thrown (UserIdMismatchError (Session.id session)), st).
Proof.
  intros H Hne. unfold validateUserId. rewrite H.
  destruct userId as [u|]; [|reflexivity].
  destruct (decide (owner = u)); [congruence | reflexivity].
Qed.

Lemma validateUserId_state session userId st :
  (validateUserId session userId st).2 = st.
Proof.
  unfold validateUserId, ret, throw.
  repeat case_match; reflexivity.
Qed.

(** *** [get] by cases *)

Lemma get_absent now sessionId userId st :
  st !! sessionId = None ->
  get ttlMs now sessionId userId st = (Returned None, st).
Proof. intros H. unfold_store. rewrite H. reflexivity. Qed.

Lemma get_expired now sessionId userId st session :
  st !! sessionId = Some session ->
  isExpired ttlMs now session = true ->
  get ttlMs now sessionId userId st
  = (Returned None, base.delete sessionId st).
Proof. intros H He. unfold_store. rewrite H, He. reflexivity. Qed.

Lemma get_live now sessionId userId st session :
  st !! sessionId = Some session ->
  isExpired ttlMs now session = false ->
  get ttlMs now sessionId userId st
  = (match (validateUserId session userId st).1 with
     | Returned _ => Returned (Some session)
     | Thrown e => Thrown e
     end, st).
Proof.
  intros H He. unfold get, bind, sessions_get; simpl. rewrite H, He.
  pose proof (validateUserId_state session userId st) as Hst.
  destruct (validateUserId session userId st) as [[a|e] st'];
    simpl in *; subst st'; reflexivity.
Qed.

Lemma get_not_found now sessionId userId st :
  isLive ttlMs now st sessionId = false ->
  get ttlMs now sessionId userId st
  = (Returned None, base.delete sessionId st).
Proof.
  unfold isLive. intros H.
  destruct (st !! sessionId) as [session|] eqn:Hl.
  - apply negb_false_iff in H. eauto using get_expired.
  - rewrite delete_id by done. by apply get_absent.
Qed.

(** *** [exists_] *)

Lemma exists_spec now sessionId st :
  exists_ ttlMs now sessionId st
  = (Returned (isLive ttlMs now st sessionId),
     if isLive ttlMs now st sessionId then st
     else base.delete sessionId st).
Proof.
  unfold_store. unfold isLive.
  destruct (st !! sessionId) as [session|] eqn:Hl; simpl.
  - destruct (isExpired ttlMs now session); reflexivity.
  - rewrite delete_id by done. reflexivity.
Qed.

(** *** [update] and [delete] in terms of [get] *)

Lemma update_via_get now sessionId updates userId st :
  update ttlMs now sessionId updates userId st
  = match get ttlMs now sessionId userId st with
    | (Returned (Some session), st') =>
      (Returned tt, <[sessionId := applyUpdates now session updates]> st')
    | (Returned None, st') => (Thrown (SessionNotFoundError sessionId), st')
    | (Thrown e, st') => (Thrown e, st')
    end.
Proof.
  unfold update, bind.
  destruct (get ttlMs now sessionId userId st) as [[[session|]|e] st'];
    reflexivity.
Qed.

Lemma delete_via_get now sessionId userId st :
  InMemorySessionStore.delete ttlMs now sessionId userId st
  = match get ttlMs now sessionId userId st with
    | (Returned (Some session), st') =>
      (Returned tt, base.delete sessionId st')
    | (Returned None, st') => (Thrown (SessionNotFoundError sessionId), st')
    | (Thrown e, st') => (Thrown e, st')
    end.
Proof.
  unfold InMemorySessionStore.delete, bind.
  destruct (get ttlMs now sessionId userId st) as [[[session|]|e] st'];
    reflexivity.
Qed.

Lemma get_cases now sessionId userId st :
  GetCase ttlMs now sessionId userId st (get ttlMs now sessionId userId st).
Proof.
  destruct (st !! sessionId) as [session|] eqn:Hl.
  - destruct (isExpired ttlMs now session) eqn:He.
    + erewrite get_expired by eauto. eapply GetExpired; eauto.
    + erewrite get_live by eauto.
      destruct (Session.userId session) as [owner|] eqn:Ho.
      * destruct (decide (userId = Some owner)) as [->|Hne].
        -- rewrite validateUserId_match by done. simpl.
           apply GetFound; auto.
        -- erewrite validateUserId_mismatch by eauto. simpl.
           eapply GetMismatch; eauto.
      * rewrite validateUserId_unbound by done. simpl.
        apply GetFound; auto.
  - rewrite get_absent by done. by apply GetAbsent.
Qed.

(** *** [cleanup] *)

Lemma cleanup_fold now (base m : gmap string Session.t) :
  let r := map_fold (cleanupStep ttlMs now) (base, O) m in
  (forall sessionId,
     r.1 !! sessionId
     = match m !! sessionId with
       | Some session =>
         if isExpired ttlMs now session then None else base !! sessionId
       | None => base !! sessionId
       end)
  /\ r.2 = size (expiredSessions ttlMs now m).
Proof.
  unfold expiredSessions.
  apply (map_fold_weak_ind
    (fun (r : gmap string Session.t * nat) (m : gmap string Session.t) =>
       (forall sessionId,
          r.1 !! sessionId
          = match m !! sessionId with
            | Some session =>
              if isExpired ttlMs now session then None else base !! sessionId
            | None => base !! sessionId
            end)
       /\ r.2 = size (filter (fun kv => isExpired ttlMs now kv.2 = true) m))).
  - split; [intros k; by rewrite lookup_empty|].
    by rewrite map_filter_empty, map_size_empty.
  - intros i x m' r Hi [IHl IHn]. unfold cleanupStep.
    destruct (isExpired ttlMs now x) eqn:He; simpl; split.
    + intros k. destruct (decide (i = k)) as [->|Hne].
      * by rewrite lookup_delete_eq, lookup_insert_eq, He.
      * rewrite lookup_delete_ne, lookup_insert_ne by done. apply IHl.
    + rewrite map_filter_insert_True by done.
      rewrite map_size_insert_None; [by rewrite IHn|].
      apply map_lookup_filter_None. by left.
    + intros k. destruct (decide (i = k)) as [->|Hne].
      * rewrite lookup_insert_eq, He. rewrite IHl, Hi. reflexivity.
      * rewrite lookup_insert_ne by done. apply IHl.
    + rewrite map_filter_insert_False by (simpl; congruence).
      rewrite delete_id by done. exact IHn.
Qed.

Lemma cleanup_lookup now st sessionId :
  (cleanup ttlMs now st).2 !! sessionId
  = match st !! sessionId with
    | Some session => if isExpired ttlMs now session then None else Some session
    | None => None
    end.
Proof.
  unfold cleanup. pose proof (cleanup_fold now st st) as [Hl _].
  destruct (map_fold (cleanupStep ttlMs now) (st, O) st) as [st' n].
  simpl in *. rewrite Hl.
  destruct (st !! sessionId) as [session|]; [|reflexivity].
  destruct (isExpired ttlMs now session); reflexivity.
Qed.

Lemma cleanup_result now st :
  (cleanup ttlMs now st).1 = Returned (size (expiredSessions ttlMs now st)).
Proof.
  unfold cleanup. pose proof (cleanup_fold now st st) as [_ Hn].
  destruct (map_fold (cleanupStep ttlMs now) (st, O) st) as [st' n].
  simpl in *. by rewrite Hn.
Qed.

Lemma cleanup_state now st :
  (cleanup ttlMs now st).2 = liveSessions ttlMs now st.
Proof.
  apply map_eq. intros k. rewrite cleanup_lookup. unfold liveSessions.
  rewrite map_lookup_filter.
  destruct (st !! k) as [session|]; simpl; [|reflexivity].
  destruct (isExpired ttlMs now session) eqn:He.
  - rewrite option_guard_False by auto. reflexivity.
  - rewrite option_guard_True by congruence. reflexivity.
Qed.

Lemma size_live_expired now st :
  size st
  = (size (liveSessions ttlMs now st) + size (expiredSessions ttlMs now st))%nat.
Proof.
  unfold liveSessions, expiredSessions.
  rewrite <- (map_filter_union_complement
    (fun kv : string * Session.t => isExpired ttlMs now kv.2 = true) st) at 1.
  rewrite map_size_disj_union by apply map_disjoint_filter_complement.
  lia.
Qed.

Lemma expired_of_live_empty now st :
  expiredSessions ttlMs now (liveSessions ttlMs now st) = ∅.
Proof.
  unfold expiredSessions, liveSessions.
  apply map_eq. intros k. rewrite lookup_empty.
  apply map_lookup_filter_None. right. intros x Hx.
  apply map_lookup_filter_Some in Hx as [_ Hx]. exact Hx.
Qed.

Lemma live_of_live now st :
  liveSessions ttlMs now (liveSessions ttlMs now st)
  = liveSessions ttlMs now st.
Proof.
  unfold liveSessions. apply map_filter_id.
  intros i x Hx. apply map_lookup_filter_Some in Hx as [_ Hx]. exact Hx.
Qed.

(** *** Expiry: the lazy and the eager path *)

(** C1 (amended). For a stored record with last-activity time [t], [get] at
    time [now] returns the record to an accepted caller when [now - t] is at
    most the TTL (the boundary instant [now - t = ttlMs] included) and
    returns not-found, evicting the record, when [now - t] is strictly
    greater than the TTL.  The lazy path ([get], [exists_]) and the eager
    path ([cleanup]) drop the record in exactly the same case: when
    [isExpired] holds, that is when [ttlMs < now - t]. *)
Theorem expiry_lazy_eager_agree now sessionId userId st session :
  st !! sessionId = Some session ->
  (now - Session.lastModified session <= ttlMs ->
   (Session.userId session = None \/ Session.userId session = userId) ->
   get ttlMs now sessionId userId st = (Returned (Some session), st))
  /\ (now - Session.lastModified session <= ttlMs ->
      (get ttlMs now sessionId userId st).1 <> Returned None)
  /\ (ttlMs < now - Session.lastModified session ->
      get ttlMs now sessionId userId st
      = (Returned None, base.delete sessionId st))
  /\ (isExpired ttlMs now session = true
      <-> ttlMs < now - Session.lastModified session)
  /\ ((get ttlMs now sessionId userId st).2 !! sessionId = None
      <-> isExpired ttlMs now session = true)
  /\ ((exists_ ttlMs now sessionId st).1 = Returned false
      <-> isExpired ttlMs now session = true)
  /\ ((exists_ ttlMs now sessionId st).2 !! sessionId = None
      <-> isExpired ttlMs now session = true)
  /\ ((cleanup ttlMs now st).2 !! sessionId = None
      <-> isExpired ttlMs now session = true).
Proof.
  intros Hl.
  pose proof (get_cases now sessionId userId st) as Hg.
  split_and!.
  - intros Hage%isExpired_le Hid.
    inversion Hg as [Hn|s He Hx|s o Hs He Ho Hne|s Hs He Hok];
      simplify_eq; try congruence.
    destruct Hid as [Hid|Hid]; congruence.
  - intros Hage%isExpired_le.
    inversion Hg as [Hn Heq|s Hs He Heq|s o Hs He Ho Hne Heq|s Hs He Hok Heq];
      simplify_eq; simpl; congruence.
  - intros Hage%isExpired_gt. eauto using get_expired.
  - apply isExpired_gt.
  - inversion Hg as [Hn Heq|s Hs He Heq|s o Hs He Ho Hne Heq|s Hs He Hok Heq];
      simplify_eq; simpl.
    + rewrite lookup_delete_eq. tauto.
    + rewrite Hl. split; congruence.
    + rewrite Hl. split; congruence.
  - rewrite exists_spec. unfold isLive. rewrite Hl. simpl.
    destruct (isExpired ttlMs now session); simpl; split; congruence.
  - rewrite exists_spec. unfold isLive. rewrite Hl. simpl.
    destruct (isExpired ttlMs now session); simpl.
    + rewrite lookup_delete_eq. tauto.
    + rewrite Hl. split; congruence.
  - rewrite cleanup_lookup, Hl.
    destruct (isExpired ttlMs now session); split; congruence.
Qed.

(** *** Identity binding *)

(** Identity binding against the owner the stored record carries.  For a
    live record carrying an owner, [get], [update] and [delete] throw
    [UserIdMismatchError] when the caller's identity is absent or differs
    from that owner and succeed when it is that owner; for a live record
    carrying no owner they succeed for every caller identity, and [get]
    returns the same record, leaving the store as it is, whatever identity
    is supplied. *)
Theorem identity_binding_enforced now sessionId updates st session :
  st !! sessionId = Some session ->
  isExpired ttlMs now session = false ->
  (forall owner userId,
     Session.userId session = Some owner ->
     (userId <> Some owner ->
      (get ttlMs now sessionId userId st).1
        = Thrown (UserIdMismatchError (Session.id session))
      /\ (update ttlMs now sessionId updates userId st).1
        = Thrown (UserIdMismatchError (Session.id session))
      /\ (InMemorySessionStore.delete ttlMs now sessionId userId st).1
        = Thrown (UserIdMismatchError (Session.id session)))
     /\ (userId = Some owner ->
         (get ttlMs now sessionId userId st).1 = Returned (Some session)
         /\ (update ttlMs now sessionId updates userId st).1 = Returned tt
         /\ (InMemorySessionStore.delete ttlMs now sessionId userId st).1
            = Returned tt))
  /\ (Session.userId session = None ->
      forall userId,
        get ttlMs now sessionId userId st = (Returned (Some session), st)
        /\ (update ttlMs now sessionId updates userId st).1 = Returned tt
        /\ (InMemorySessionStore.delete ttlMs now sessionId userId st).1
           = Returned tt).
Proof.
  intros Hl He. split.
  - intros owner userId Ho. split.
    + intros Hne.
      assert (get ttlMs now sessionId userId st
              = (Thrown (UserIdMismatchError (Session.id session)), st))
        as Hg.
      { erewrite get_live by eauto.
        erewrite validateUserId_mismatch by eauto. reflexivity. }
      rewrite update_via_get, delete_via_get, Hg. auto.
    + intros ->.
      assert (get ttlMs now sessionId (Some owner) st
              = (Returned (Some session), st)) as Hg.
      { erewrite get_live by eauto.
        rewrite validateUserId_match by done. reflexivity. }
      rewrite update_via_get, delete_via_get, Hg. auto.
  - intros Ho userId.
    assert (get ttlMs now sessionId userId st
            = (Returned (Some session), st)) as Hg.
    { erewrite get_live by eauto.
      rewrite validateUserId_unbound by done. reflexivity. }
    rewrite update_via_get, delete_via_get, Hg. auto.
Qed.

(** *** Not found *)

(** C3. For an id that is absent from the store or maps to an expired
    record, [get] returns not-found ([null]) and leaves no record under the
    id (the expired one is removed), and [update] and [delete] throw
    [SessionNotFoundError]; the outcome is the same in both cases, whatever
    the caller's identity, so the error kind does not tell an expired
    record from one that never existed. *)
Theorem absent_or_expired_not_found now sessionId updates userId st :
  (st !! sessionId = None
   \/ exists session,
        st !! sessionId = Some session /\ isExpired ttlMs now session = true) ->
  get ttlMs now sessionId userId st
    = (Returned None, base.delete sessionId st)
  /\ (get ttlMs now sessionId userId st).2 !! sessionId = None
  /\ update ttlMs now sessionId updates userId st
    = (Thrown (SessionNotFoundError sessionId), base.delete sessionId st)
  /\ InMemorySessionStore.delete ttlMs now sessionId userId st
    = (Thrown (SessionNotFoundError sessionId), base.delete sessionId st)
  /\ (forall other, other <> sessionId ->
        base.delete sessionId st !! other = st !! other).
Proof.
  intros H.
  assert (get ttlMs now sessionId userId st
          = (Returned None, base.delete sessionId st)) as Hg.
  { apply get_not_found. unfold isLive.
    destruct H as [->|(session & -> & ->)]; reflexivity. }
  rewrite update_via_get, delete_via_get, Hg. simpl.
  split_and!; try reflexivity.
  - apply lookup_delete_eq.
  - intros other Hne. by apply lookup_delete_ne.
Qed.

(** C10. When [get], [update] or [delete] throws [UserIdMismatchError] the
    map of sessions is exactly what it was before the call: nothing is
    evicted, merged, refreshed or removed. *)
Theorem mismatch_leaves_store_unchanged now sessionId updates userId st :
  (forall id,
     (get ttlMs now sessionId userId st).1 = Thrown (UserIdMismatchError id) ->
     (get ttlMs now sessionId userId st).2 = st)
  /\ (forall id,
        (update ttlMs now sessionId updates userId st).1
          = Thrown (UserIdMismatchError id) ->
        (update ttlMs now sessionId updates userId st).2 = st)
  /\ (forall id,
        (InMemorySessionStore.delete ttlMs now sessionId userId st).1
          = Thrown (UserIdMismatchError id) ->
        (InMemorySessionStore.delete ttlMs now sessionId userId st).2 = st).
Proof.
  rewrite update_via_get, delete_via_get.
  destruct (get_cases now sessionId userId st); simpl;
    split_and!; intros id' ?; simplify_eq; reflexivity.
Qed.

(** *** Frame of [update] and [get] *)

(** C7. A successful [update] of a session replaces exactly the supplied
    fields and sets [lastModified] to the current time: [id] and
    [createdAt] and every unsupplied field keep their value, and the record
    under every other id is untouched.  A successful [get] returns the
    stored record as it is and leaves the whole store, [lastModified]
    included, unchanged. *)
Theorem update_get_frame now sessionId updates userId st st' :
  (update ttlMs now sessionId updates userId st = (Returned tt, st') ->
   exists session session',
     st !! sessionId = Some session
     /\ isExpired ttlMs now session = false
     /\ st' !! sessionId = Some session'
     /\ Session.id session' = Session.id session
     /\ Session.createdAt session' = Session.createdAt session
     /\ Session.lastModified session' = now
     /\ Session.userId session'
        = default (Session.userId session) (Updates.userId updates)
     /\ Session.scratchpad session'
        = default (Session.scratchpad session) (Updates.scratchpad updates)
     /\ Session.todos session'
        = default (Session.todos session) (Updates.todos updates)
     /\ (forall other, other <> sessionId -> st' !! other = st !! other))
  /\ (forall session,
        get ttlMs now sessionId userId st = (Returned (Some session), st') ->
        st' = st /\ st !! sessionId = Some session).
Proof.
  split.
  - rewrite update_via_get.
    destruct (get_cases now sessionId userId st) as [Hn|s Hs He|s o Hs He Ho Hne|s Hs He Hok];
      intros Hu; simplify_eq.
    exists s, (applyUpdates now s updates).
    split_and!; try done.
    + apply lookup_insert_eq.
    + intros other Hne. by apply lookup_insert_ne.
  - intros session.
    destruct (get_cases now sessionId userId st) as [Hn|s Hs He|s o Hs He Ho Hne|s Hs He Hok];
      intros Hu; simplify_eq. auto.
Qed.

(** *** Sweep and count *)

(** C8. [cleanup] removes exactly the expired records and keeps every
    other record as it is, returns the number of records it removed, and a
    second [cleanup] at the same instant removes nothing and leaves the
    store unchanged. *)
Theorem cleanup_exact_idempotent now st :
  (forall sessionId,
     (cleanup ttlMs now st).2 !! sessionId
     = match st !! sessionId with
       | Some session =>
         if isExpired ttlMs now session then None else Some session
       | None => None
       end)
  /\ (cleanup ttlMs now st).1
     = Returned (size (expiredSessions ttlMs now st))
  /\ (cleanup ttlMs now st).1
     = Returned (size st - size (cleanup ttlMs now st).2)%nat
  /\ cleanup ttlMs now (cleanup ttlMs now st).2
     = (Returned O, (cleanup ttlMs now st).2).
Proof.
  split_and!.
  - apply cleanup_lookup.
  - apply cleanup_result.
  - rewrite cleanup_result, cleanup_state. f_equal.
    rewrite (size_live_expired now st). lia.
  - rewrite cleanup_state.
    rewrite (surjective_pairing (cleanup ttlMs now (liveSessions ttlMs now st))).
    rewrite cleanup_result, cleanup_state.
    by rewrite expired_of_live_empty, live_of_live, map_size_empty.
Qed.

(** C4 (amended). [count] returns the number of records held in the map,
    the expired but not yet evicted ones included, so it is the number of
    non-expired records plus the number of stored expired ones, and equals
    the number of non-expired records once a sweep has run at that instant;
    [count] itself removes no record. *)
Theorem count_is_map_size now st :
  count st = (Returned (size st), st)
  /\ size st
     = (size (liveSessions ttlMs now st)
        + size (expiredSessions ttlMs now st))%nat
  /\ (count (cleanup ttlMs now st).2).1
     = Returned (size (liveSessions ttlMs now st)).
Proof.
  split_and!.
  - reflexivity.
  - apply size_live_expired.
  - unfold count, sessions_size. simpl. by rewrite cleanup_state.
Qed.

(** *** Identifier generation and [create] *)

(** The loop never runs out of fuel: beyond [S maxAttempts - attempts]
    iterations more fuel changes nothing. *)
Lemma generateUniqueId_loop_fuel now nanoid fuel attempts st :
  (S maxAttempts - attempts <= fuel)%nat ->
  generateUniqueId_loop ttlMs fuel now nanoid attempts st
  = generateUniqueId_loop ttlMs (S maxAttempts - attempts) now nanoid
      attempts st.
Proof.
  revert attempts st. induction fuel as [|fuel IH]; intros attempts st Hf.
  - replace (S maxAttempts - attempts)%nat with O by lia. reflexivity.
  - destruct (decide (maxAttempts < S attempts)%nat) as [Hgt|Hle].
    + destruct (S maxAttempts - attempts)%nat as [|n] eqn:Hn; simpl.
      * unfold maxAttempts in *.
        destruct (10 <? S attempts)%nat eqn:Hc; [reflexivity|].
        apply Nat.ltb_ge in Hc. lia.
      * destruct (maxAttempts <? S attempts)%nat eqn:Hc; [reflexivity|].
        apply Nat.ltb_ge in Hc. lia.
    + replace (S maxAttempts - attempts)%nat
        with (S (S maxAttempts - S attempts))%nat by lia.
      simpl. destruct (maxAttempts <? S attempts)%nat; [reflexivity|].
      unfold bind. rewrite exists_spec.
      destruct (isLive ttlMs now st (nanoid attempts)); [|reflexivity].
      apply IH. lia.
Qed.

(** What the loop computes: the first candidate, among those it is allowed
    to test, that does not name a live record; an expired record found
    under that candidate is evicted by [exists_]. *)
Lemma generateUniqueId_loop_spec now nanoid fuel attempts st :
  (S maxAttempts - attempts <= fuel)%nat ->
  match generateUniqueId_loop ttlMs fuel now nanoid attempts st with
  | (Returned id, st') =>
    exists k,
      (attempts <= k < maxAttempts)%nat
      /\ id = nanoid k
      /\ isLive ttlMs now st (nanoid k) = false
      /\ (forall j, (attempts <= j < k)%nat ->
            isLive ttlMs now st (nanoid j) = true)
      /\ st' = base.delete id st
  | (Thrown e, st') =>
    e = PlainError exhaustedMessage
    /\ st' = st
    /\ (forall j, (attempts <= j < maxAttempts)%nat ->
          isLive ttlMs now st (nanoid j) = true)
  end.
Proof.
  revert attempts st. induction fuel as [|fuel IH]; intros attempts st Hf.
  - simpl. split_and!; try reflexivity. intros j Hj. lia.
  - simpl. destruct (maxAttempts <? S attempts)%nat eqn:Hc.
    + apply Nat.ltb_lt in Hc. simpl.
      split_and!; try reflexivity. intros j Hj. lia.
    + apply Nat.ltb_ge in Hc. unfold bind. rewrite exists_spec.
      destruct (isLive ttlMs now st (nanoid attempts)) eqn:Hlive.
      * specialize (IH (S attempts) st ltac:(lia)).
        destruct (generateUniqueId_loop ttlMs fuel now nanoid (S attempts) st)
          as [[id|e] st'].
        -- destruct IH as (k & Hk & -> & Hfree & Hbefore & ->).
           exists k. split_and!; try done; try lia.
           intros j Hj. destruct (decide (j = attempts)) as [->|Hne]; [done|].
           apply Hbefore. lia.
        -- destruct IH as (-> & -> & Hall).
           split_and!; try done.
           intros j Hj. destruct (decide (j = attempts)) as [->|Hne]; [done|].
           apply Hall. lia.
      * simpl. exists attempts. split_and!; try done; lia.
Qed.

(** [create] in closed form: the session made from the first candidate
    that names no live record, stored over whatever [exists_] evicted. *)
Lemma create_result now nanoid userId st :
  match create ttlMs now nanoid userId st with
  | (Returned session, st') =>
    exists k,
      (k < maxAttempts)%nat
      /\ isLive ttlMs now st (nanoid k) = false
      /\ (forall j, (j < k)%nat -> isLive ttlMs now st (nanoid j) = true)
      /\ session = newSession now (nanoid k) userId
      /\ st' = <[nanoid k := session]> (base.delete (nanoid k) st)
  | (Thrown e, st') =>
    e = PlainError exhaustedMessage
    /\ st' = st
    /\ (forall j, (j < maxAttempts)%nat ->
          isLive ttlMs now st (nanoid j) = true)
  end.
Proof.
  unfold create, generateUniqueId, bind.
  pose proof (generateUniqueId_loop_spec now nanoid (S maxAttempts) O st
                ltac:(lia)) as H.
  destruct (generateUniqueId_loop ttlMs (S maxAttempts) now nanoid O st)
    as [[id|e] st1].
  - destruct H as (k & Hk & -> & Hfree & Hbefore & ->). simpl.
    exists k. split_and!; try done; [lia|].
    intros j Hj. apply Hbefore. lia.
  - destruct H as (-> & -> & Hall). simpl.
    split_and!; try done. intros j Hj. apply Hall. lia.
Qed.

(** C6. [create] either throws the exhaustion error, which happens exactly
    when the first ten candidate ids all name live records, and then leaves
    the store as it is; or it returns a session stored under one of those
    candidates, an id that names no live record of the store it started
    from, with empty scratchpad, no todos, [createdAt] and [lastModified]
    both the current time and the owner bound to exactly what was supplied,
    every record under another id being kept. *)
Theorem create_fresh_or_exhausted now nanoid userId st :
  match create ttlMs now nanoid userId st with
  | (Returned session, st') =>
    (exists k, (k < maxAttempts)%nat /\ Session.id session = nanoid k)
    /\ (forall sessionId other,
          st !! sessionId = Some other ->
          isExpired ttlMs now other = false ->
          Session.id session <> sessionId)
    /\ Session.userId session = userId
    /\ Session.scratchpad session = ""
    /\ Session.todos session = []
    /\ Session.createdAt session = now
    /\ Session.lastModified session = now
    /\ st' !! Session.id session = Some session
    /\ (forall sessionId,
          sessionId <> Session.id session -> st' !! sessionId = st !! sessionId)
  | (Thrown e, st') =>
    e = PlainError exhaustedMessage
    /\ st' = st
    /\ (forall k, (k < maxAttempts)%nat ->
          exists other,
            st !! nanoid k = Some other
            /\ isExpired ttlMs now other = false)
  end.
Proof.
  pose proof (create_result now nanoid userId st) as H.
  destruct (create ttlMs now nanoid userId st) as [[session|e] st'].
  - destruct H as (k & Hk & Hfree & _ & -> & ->). simpl.
    split_and!; try reflexivity.
    + exists k. split; [exact Hk | reflexivity].
    + intros sessionId other Hl He <-.
      unfold isLive in Hfree. rewrite Hl, He in Hfree. discriminate.
    + apply lookup_insert_eq.
    + intros sessionId Hne.
      rewrite lookup_insert_ne, lookup_delete_ne by done. reflexivity.
  - destruct H as (-> & -> & Hall).
    split_and!; try reflexivity.
    intros k Hk. specialize (Hall k Hk). unfold isLive in Hall.
    destruct (st !! nanoid k) as [other|]; [|discriminate].
    exists other. split; [reflexivity|]. by apply negb_true_iff.
Qed.

End Facts.

(** *** The owner binding along a trace *)

Import StoreTrace.

Section TraceFacts.

Variable ttlMs : Z.

(** Where a record found after one call comes from: it was stored before
    under the same key, with the same [id] and [createdAt] and, unless the
    call is an [update] carrying [userId], the same owner; or the call is
    the [create] that made it. *)
Lemma step_origin now op st sessionId session' :
  step ttlMs now op st !! sessionId = Some session' ->
  (exists session,
     st !! sessionId = Some session
     /\ Session.id session' = Session.id session
     /\ Session.createdAt session' = Session.createdAt session
     /\ (suppliesUserId op = false ->
         Session.userId session' = Session.userId session))
  \/ (exists nanoid userId,
        op = Create nanoid userId
        /\ (create ttlMs now nanoid userId st).1 = Returned session'
        /\ Session.id session' = sessionId
        /\ Session.userId session' = userId).
Proof.
  intros Hl. destruct op as [nanoid u|sid u|sid upd u|sid u|sid| |];
    simpl in *.
  - pose proof (create_result ttlMs now nanoid u st) as Hc.
    destruct (create ttlMs now nanoid u st) as [[session|e] st'] eqn:Hcr;
      simpl in *.
    + destruct Hc as (k & _ & _ & _ & -> & ->).
      destruct (decide (nanoid k = sessionId)) as [<-|Hne].
      * right. exists nanoid, u. rewrite lookup_insert_eq in Hl.
        simplify_eq. rewrite Hcr. auto.
      * left. rewrite lookup_insert_ne, lookup_delete_ne in Hl by done.
        eauto 6.
    + destruct Hc as (_ & -> & _). left. eauto 6.
  - left. destruct (get_cases ttlMs now sid u st); simpl in *; eauto 6.
    destruct (decide (sid = sessionId)) as [->|Hne].
    + by rewrite lookup_delete_eq in Hl.
    + rewrite lookup_delete_ne in Hl by done. eauto 6.
  - left. rewrite update_via_get in Hl.
    destruct (get_cases ttlMs now sid u st); simpl in *; eauto 6.
    + destruct (decide (sid = sessionId)) as [->|Hne].
      * by rewrite lookup_delete_eq in Hl.
      * rewrite lookup_delete_ne in Hl by done. eauto 6.
    + destruct (decide (sid = sessionId)) as [->|Hne].
      * rewrite lookup_insert_eq in Hl. simplify_eq.
        eexists. split_and!; [eassumption|reflexivity..|].
        intros Hno. simpl.
        destruct (Updates.userId upd); [discriminate | reflexivity].
      * rewrite lookup_insert_ne in Hl by done. eauto 6.
  - left. rewrite delete_via_get in Hl.
    destruct (get_cases ttlMs now sid u st); simpl in *; eauto 6;
      (destruct (decide (sid = sessionId)) as [->|Hne];
       [by rewrite lookup_delete_eq in Hl
       |rewrite lookup_delete_ne in Hl by done; eauto 6]).
  - left. rewrite exists_spec in Hl. simpl in Hl.
    destruct (isLive ttlMs now st sid); eauto 6.
    destruct (decide (sid = sessionId)) as [->|Hne].
    + by rewrite lookup_delete_eq in Hl.
    + rewrite lookup_delete_ne in Hl by done. eauto 6.
  - left. eauto 6.
  - left. rewrite cleanup_lookup in Hl.
    destruct (st !! sessionId) as [session|]; [|discriminate].
    destruct (isExpired ttlMs now session); simplify_eq. eauto 6.
Qed.

(** Ids are never rewritten: every call keeps each record under its own
    id, so the keys tested by [generateUniqueId] are the ids of the
    records. *)
Lemma step_wellKeyed now op st :
  wellKeyed st -> wellKeyed (step ttlMs now op st).
Proof.
  intros Hwf sessionId session' Hl.
  destruct (step_origin now op st sessionId session' Hl)
    as [(session & Hs & Hid & _)|(nanoid & u & _ & _ & Hid & _)];
    [|exact Hid].
  rewrite Hid. by apply Hwf.
Qed.

Lemma run_wellKeyed trace st log :
  wellKeyed st -> wellKeyed (run ttlMs trace (st, log)).1.
Proof.
  revert st log. induction trace as [|[now op] rest IH]; intros st log Hwf.
  - exact Hwf.
  - simpl. apply IH. by apply step_wellKeyed.
Qed.

(** In a well-keyed store the session made by [create] has an [id]
    different from the [id] of every live record. *)
Lemma create_id_differs_from_live_ids now nanoid userId st session st' :
  wellKeyed st ->
  create ttlMs now nanoid userId st = (Returned session, st') ->
  forall sessionId other,
    st !! sessionId = Some other ->
    isExpired ttlMs now other = false ->
    Session.id session <> Session.id other.
Proof.
  intros Hwf Hc sessionId other Hl He.
  pose proof (create_result ttlMs now nanoid userId st) as H.
  rewrite Hc in H. destruct H as (k & _ & Hfree & _ & -> & _). simpl.
  rewrite (Hwf _ _ Hl). intros <-.
  unfold isLive in Hfree. rewrite Hl, He in Hfree. discriminate.
Qed.

Lemma step_boundAsCreated now op st log :
  suppliesUserId op = false ->
  boundAsCreated st log ->
  boundAsCreated (step ttlMs now op st) (logStep ttlMs now op st log).
Proof.
  intros Hop Hinv sessionId session' Hl.
  destruct (step_origin now op st sessionId session' Hl)
    as [(session & Hs & _ & _ & Hu)|(nanoid & u & -> & Hc & Hid & Hu)].
  - specialize (Hu Hop). rewrite Hu. unfold logStep. destruct op; auto.
    pose proof (create_result ttlMs now nanoid userId st) as Hc.
    simpl in Hl.
    destruct (create ttlMs now nanoid userId st) as [[made|e] st'];
      simpl in *; auto.
    destruct Hc as (k & _ & _ & _ & -> & ->). simpl.
    destruct (decide (nanoid k = sessionId)) as [<-|Hne].
    + rewrite lookup_insert_eq in Hl. simplify_eq.
      rewrite lookup_insert_eq. simpl in Hu. congruence.
    + rewrite lookup_insert_ne by done. auto.
  - simpl. rewrite Hc. subst. by rewrite lookup_insert_eq.
Qed.

(** C5 (amended). Along every sequence of store operations in which no
    [update] carries the key [userId] in its partial fields, every stored
    session keeps the owner binding supplied when its id was created:
    a session created with an owner keeps that owner, and one created
    without an owner never acquires one. *)
Theorem owner_binding_kept trace st log :
  Forall (fun call => suppliesUserId call.2 = false) trace ->
  boundAsCreated st log ->
  boundAsCreated (run ttlMs trace (st, log)).1 (run ttlMs trace (st, log)).2.
Proof.
  intros Htrace. revert st log.
  induction Htrace as [|[now op] rest Hop _ IH]; intros st log Hinv.
  - exact Hinv.
  - simpl. apply IH. by apply step_boundAsCreated.
Qed.

End TraceFacts.

(** C1, the claim as stated fails: at the instant where the age equals the
    TTL (1000 ms after the last activity, TTL 1000 ms) [get] still returns
    the record. *)
Lemma get_at_ttl_boundary_returns_record :
  1000 - Session.lastModified anonSession >= 1000
  /\ get 1000 1000 "s1" None anonStore = (Returned (Some anonSession), anonStore).
Proof. split; [vm_compute; discriminate | vm_compute; reflexivity]. Qed.

Lemma expiry_lazy_eager_agree_witness :
  anonStore !! "s1" = Some anonSession
  /\ get 1000 1000 "s1" None anonStore
     = (Returned (Some anonSession), anonStore).
Proof.
  assert (anonStore !! "s1" = Some anonSession) as Hl by reflexivity.
  split; [exact Hl|].
  destruct (expiry_lazy_eager_agree 1000 1000 "s1" None anonStore anonSession Hl)
    as (Hget & _).
  apply Hget; [vm_compute; discriminate | left; reflexivity].
Defined.

Lemma identity_binding_enforced_witness :
  (get 1000 500 "s1" (Some "u2") ownedStore).1
  = Thrown (UserIdMismatchError "s1")
  /\ (get 1000 500 "s1" None ownedStore).1
     = Thrown (UserIdMismatchError "s1")
  /\ (get 1000 500 "s1" (Some "u1") ownedStore).1
     = Returned (Some ownedSession).
Proof.
  destruct (identity_binding_enforced 1000 500 "s1" (scratchpadOnly "x")
              ownedStore ownedSession eq_refl eq_refl) as [Hbound _].
  split_and!.
  - apply (Hbound "u1" (Some "u2") eq_refl). discriminate.
  - apply (Hbound "u1" None eq_refl). discriminate.
  - apply (Hbound "u1" (Some "u1") eq_refl). reflexivity.
Defined.

Lemma absent_or_expired_not_found_witness :
  InMemorySessionStore.delete 1000 5000 "s1" None anonStore
  = (Thrown (SessionNotFoundError "s1"), base.delete "s1" anonStore)
  /\ InMemorySessionStore.delete 1000 5000 "nope" None anonStore
     = (Thrown (SessionNotFoundError "nope"), base.delete "nope" anonStore).
Proof.
  split.
  - apply (absent_or_expired_not_found 1000 5000 "s1" (scratchpadOnly "x")
             None anonStore).
    right. exists anonSession. split; reflexivity.
  - apply (absent_or_expired_not_found 1000 5000 "nope" (scratchpadOnly "x")
             None anonStore).
    left. reflexivity.
Defined.

Lemma mismatch_leaves_store_unchanged_witness :
  (update 1000 500 "s1" (scratchpadOnly "x") (Some "u2") ownedStore).2
  = ownedStore.
Proof.
  destruct (mismatch_leaves_store_unchanged 1000 500 "s1" (scratchpadOnly "x")
              (Some "u2") ownedStore) as (_ & Hupdate & _).
  apply (Hupdate "s1"). reflexivity.
Defined.

Lemma update_get_frame_witness :
  exists session',
    <["s1" := applyUpdates 500 anonSession (scratchpadOnly "x")]> anonStore
      !! "s1" = Some session'
    /\ Session.scratchpad session' = "x"
    /\ Session.createdAt session' = 0
    /\ Session.lastModified session' = 500.
Proof.
  destruct (update_get_frame 1000 500 "s1" (scratchpadOnly "x") None anonStore
              (<["s1" := applyUpdates 500 anonSession (scratchpadOnly "x")]>
                 anonStore)) as [Hupdate _].
  destruct (Hupdate eq_refl)
    as (session & session' & Hs & _ & Hs' & _ & Hc & Hm & _ & Hp & _).
  exists session'. replace session with anonSession in * by
    (change (anonStore !! "s1") with (Some anonSession) in Hs; congruence).
  auto.
Defined.

(** C4, the claim as stated fails: a store whose only record is expired,
    and neither evicted nor swept, has no non-expired record, yet [count]
    returns 1. *)
Lemma count_includes_expired_record :
  isExpired 1000 5000 anonSession = true
  /\ size (liveSessions 1000 5000 anonStore) = O
  /\ count anonStore = (Returned 1%nat, anonStore).
Proof. split_and!; vm_compute; reflexivity. Qed.

(** C5, the claim as stated fails: a session created without an owner
    acquires one through an [update] whose partial fields carry
    [userId]. *)
Lemma update_rebinds_owner :
  let trace :=
    [ (0, Create (fun _ => "s1") None);
      (1, Update "s1" (ownerOnly (Some "u2")) None) ] in
  let c := run 1000 trace (∅, ∅) in
  c.2 !! "s1" = Some None
  /\ Session.userId <$> c.1 !! "s1" = Some (Some "u2")
  /\ ~ boundAsCreated c.1 c.2.
Proof.
  simpl. split_and!; [vm_compute; reflexivity..|].
  intros H.
  specialize (H "s1" (applyUpdates 1 anonSession (ownerOnly (Some "u2")))).
  assert (Some None = Some (Some "u2")) as Habs; [|discriminate].
  etrans; [symmetry|]; [|apply H]; vm_compute; reflexivity.
Qed.

Lemma owner_binding_kept_witness :
  let trace :=
    [ (0, Create (fun _ => "s1") (Some "u1"));
      (1, Update "s1" (scratchpadOnly "x") (Some "u1"));
      (2, Get "s1" (Some "u2"));
      (5000, Cleanup) ] in
  boundAsCreated (run 1000 trace (∅, ∅)).1 (run 1000 trace (∅, ∅)).2.
Proof.
  intros trace. apply (owner_binding_kept 1000 trace ∅ ∅).
  - repeat constructor.
  - intros sessionId session H. rewrite lookup_empty in H. discriminate.
Defined.

(** *** The scenarios of the test suite *)

Example create_then_get :
  (let* made := create 3600000 0 (fun _ => "s1") None in
   get 3600000 1 (Session.id made) None) ∅
  = (Returned (Some anonSession), anonStore).
Proof. vm_compute. reflexivity. Qed.

Example update_then_get :
  ((update 3600000 10 "s1" (scratchpadOnly "Hello World") None ;;
    get 3600000 11 "s1" None) anonStore).1
  = Returned (Some {| Session.id := "s1";
                      Session.userId := None;
                      Session.scratchpad := "Hello World";
                      Session.todos := [];
                      Session.createdAt := 0;
                      Session.lastModified := 10 |}).
Proof. vm_compute. reflexivity. Qed.

Example delete_then_get :
  (InMemorySessionStore.delete 3600000 1 "s1" None ;;
   get 3600000 2 "s1" None) anonStore
  = (Returned None, ∅).
Proof. vm_compute. reflexivity. Qed.

Example owner_scenario :
  (get 3600000 1 "s1" (Some "u1") ownedStore).1 = Returned (Some ownedSession)
  /\ (get 3600000 1 "s1" (Some "u2") ownedStore).1
     = Thrown (UserIdMismatchError "s1")
  /\ (get 3600000 1 "s1" None ownedStore).1
     = Thrown (UserIdMismatchError "s1").
Proof. split_and!; vm_compute; reflexivity. Qed.

Example cleanup_after_expiry :
  ((create 360 0 (fun _ => "s1") None ;;
    create 360 0 (fun _ => "s2") None ;;
    let* before := count in
    let* cleaned := cleanup 360 500 in
    let* after := count in
    ret (before, cleaned, after)) ∅).1
  = Returned (2%nat, 2%nat, O).
Proof. vm_compute. reflexivity. Qed.

Example create_exhausted :
  (create 3600000 1 (fun _ => "s1") None anonStore).1
  = Thrown (PlainError exhaustedMessage).
Proof. vm_compute. reflexivity. Qed.

End StoreFacts.

(** * Properties of the TONL encoder *)
Module TonlFacts.
Import Tonl.

Local Arguments Ascii.eqb : simpl never.







(** *** [escapeValue] one code unit at a time *)

Lemma escapeValue_cons a value :
  escapeValue (String a value) = escapeUnit a +:+ escapeValue value.
Proof.
  unfold escapeValue, escapeUnit.
  destruct (Ascii.eqb_spec a backslash) as [->|Hb]; [reflexivity|].
  destruct (Ascii.eqb_spec a tab) as [->|Ht]; [reflexivity|].
  destruct (Ascii.eqb_spec a newline) as [->|Hn]; [reflexivity|].
  destruct (Ascii.eqb_spec a pipe) as [->|Hp]; [reflexivity|].
  simpl.
  apply Ascii.eqb_neq in Hb, Ht, Hn, Hp.
  rewrite Hb. simpl. rewrite Ht. simpl. rewrite Hn. simpl. rewrite Hp.
  reflexivity.
Qed.

Lemma escapeValue_nil : escapeValue EmptyString = EmptyString.
Proof. reflexivity. Qed.







Section EncoderFacts.

Variable toISOString : Z -> string.





Lemma encodeTodosToTonl_cons todo rest :
  encodeTodosToTonl toISOString (todo :: rest)
  = String.concat lf
      (("[" +:+ numberToString (length (todo :: rest)) +:+ "]{"
            +:+ String.concat ", " columns +:+ "}")
       :: map (encodeRow toISOString
                 (calculateColumnWidths toISOString (todo :: rest) columns))
            (todo :: rest)).
Proof. reflexivity. Qed.





End EncoderFacts.

(** *** The examples of the README and of the encoder tests *)

Example readme_table :
  encodeTodosToTonl isoJan18 readmeTodos
  = "[2]{id, title, status, tags, createdAt}" +:+ lf
    +:+ "abc123   Task 1   done      [backend]   2025-01-18" +:+ lf
    +:+ "def456   Task 2   pending   []          2025-01-18".
Proof. vm_compute. reflexivity. Qed.

Example empty_table :
  encodeTodosToTonl isoJan18 [] = "[0]{id, title, status, tags, createdAt}".
Proof. reflexivity. Qed.

Example special_characters :
  escapeValue (Todo.title todoWithSpecialChars)
  = "Task with\nnewline and\ttab"
  /\ escapeValue (Todo.description todoWithSpecialChars) = "Has \| pipe"
  /\ escapeValue "a\b" = "a\\b".
Proof. split_and!; vm_compute; reflexivity. Qed.


End TonlFacts.

(** * Further properties of the store *)
Module StoreMoreFacts.
Import InMemorySessionStore StoreView StoreTrace StoreRest StoreFacts.

Section MoreFacts.

Variable ttlMs : Z.

Implicit Types (st : gmap string Session.t) (session : Session.t).
Implicit Types (sessionId : string) (userId : option string) (now : Z).

Lemma get_found now sessionId userId st session :
  st !! sessionId = Some session ->
  isExpired ttlMs now session = false ->
  (Session.userId session = None \/ Session.userId session = userId) ->
  get ttlMs now sessionId userId st = (Returned (Some session), st).
Proof.
  intros Hl He Hid. erewrite get_live by eauto.
  destruct (Session.userId session) as [owner|] eqn:Ho.
  - destruct Hid as [Hid|<-]; [discriminate|].
    rewrite validateUserId_match by done. reflexivity.
  - rewrite validateUserId_unbound by done. reflexivity.
Qed.

Lemma isExpired_fresh now now' session :
  Session.lastModified session = now ->
  now' - now <= ttlMs ->
  isExpired ttlMs now' session = false.
Proof. intros <- H. by apply isExpired_le. Qed.

(** X1. [exists_] and [get] agree: they leave the same store behind, and
    [exists_] answers [true] exactly when [get] does not answer not-found
    (it returns the record or refuses the caller); [exists_] itself never
    throws, whoever owns the session. *)
Theorem exists_agrees_with_get now sessionId userId st :
  (exists_ ttlMs now sessionId st).2 = (get ttlMs now sessionId userId st).2
  /\ ((exists_ ttlMs now sessionId st).1 = Returned true
      <-> (get ttlMs now sessionId userId st).1 <> Returned None)
  /\ (exists b, (exists_ ttlMs now sessionId st).1 = Returned b).
Proof.
  rewrite exists_spec. unfold isLive.
  destruct (get_cases ttlMs now sessionId userId st)
    as [Hn|s Hs He|s o Hs He Ho Hne|s Hs He Hok]; simpl;
    rewrite ?Hn, ?Hs, ?He; simpl; split_and!; eauto;
    try (rewrite delete_id by done; reflexivity);
    split; congruence.
Qed.

(** X2. A session returned by [create] can be read back: until the TTL has
    run out, [get] with the identity given to [create] returns exactly the
    session that [create] returned and leaves the store as it is, and
    [exists_] answers [true]. *)
Theorem created_session_readable now now' nanoid userId st session st' :
  create ttlMs now nanoid userId st = (Returned session, st') ->
  now' - now <= ttlMs ->
  get ttlMs now' (Session.id session) userId st'
    = (Returned (Some session), st')
  /\ exists_ ttlMs now' (Session.id session) st' = (Returned true, st').
Proof.
  intros Hc Hage.
  pose proof (create_result ttlMs now nanoid userId st) as H.
  rewrite Hc in H. destruct H as (k & _ & _ & _ & -> & ->). simpl.
  set (made := newSession now (nanoid k) userId).
  assert (isExpired ttlMs now' made = false) as He
    by (by apply (isExpired_fresh now)).
  split.
  - apply get_found; [apply lookup_insert_eq | exact He |].
    destruct userId; simpl; auto.
  - rewrite exists_spec. unfold isLive.
    rewrite lookup_insert_eq, He. reflexivity.
Qed.

(** X3. A successful [update] restarts the expiry clock and is read back:
    however old the record was, for a whole TTL after the update [get]
    with the same identity returns the record with the supplied fields
    merged in (the update not carrying [userId]). *)
Theorem update_restarts_expiry now now' sessionId updates userId st st' :
  update ttlMs now sessionId updates userId st = (Returned tt, st') ->
  Updates.userId updates = None ->
  now' - now <= ttlMs ->
  exists session,
    st !! sessionId = Some session
    /\ get ttlMs now' sessionId userId st'
       = (Returned (Some (applyUpdates now session updates)), st').
Proof.
  rewrite update_via_get. intros Hu Hno Hage.
  destruct (get_cases ttlMs now sessionId userId st)
    as [Hn|s Hs He|s o Hs He Ho Hne|s Hs He Hok]; simplify_eq.
  exists s. split; [exact Hs|].
  apply get_found; [apply lookup_insert_eq | by apply (isExpired_fresh now) |].
  simpl. rewrite Hno. exact Hok.
Qed.

(** X4. After a successful [delete] the session is gone for every caller
    and at every later instant: the store holds one record less, [get]
    answers not-found, [exists_] answers [false], and [update] and a second
    [delete] throw [SessionNotFoundError], none of them changing the store
    further. *)
Theorem delete_then_gone now now' sessionId updates userId userId' st st' :
  InMemorySessionStore.delete ttlMs now sessionId userId st
    = (Returned tt, st') ->
  st' = base.delete sessionId st
  /\ size st' = pred (size st)
  /\ get ttlMs now' sessionId userId' st' = (Returned None, st')
  /\ exists_ ttlMs now' sessionId st' = (Returned false, st')
  /\ update ttlMs now' sessionId updates userId' st'
     = (Thrown (SessionNotFoundError sessionId), st')
  /\ InMemorySessionStore.delete ttlMs now' sessionId userId' st'
     = (Thrown (SessionNotFoundError sessionId), st').
Proof.
  rewrite delete_via_get. intros Hd.
  destruct (get_cases ttlMs now sessionId userId st)
    as [Hn|s Hs He|s o Hs He Ho Hne|s Hs He Hok]; simplify_eq.
  assert (base.delete sessionId st !! sessionId = None) as Hgone
    by apply lookup_delete_eq.
  assert (get ttlMs now' sessionId userId' (base.delete sessionId st)
          = (Returned None, base.delete sessionId st)) as Hg
    by (by apply get_absent).
  split_and!; try done.
  - apply map_size_delete_Some. eauto.
  - rewrite exists_spec. unfold isLive. rewrite Hgone.
    rewrite delete_id by done. reflexivity.
  - rewrite update_via_get, Hg. reflexivity.
  - rewrite delete_via_get, Hg. reflexivity.
Qed.

(** X5. Reading twice at the same instant is reading once: a second [get]
    with the same arguments gives the same outcome and changes nothing
    more. *)
Theorem get_idempotent now sessionId userId st :
  get ttlMs now sessionId userId (get ttlMs now sessionId userId st).2
  = get ttlMs now sessionId userId st.
Proof.
  destruct (get_cases ttlMs now sessionId userId st)
    as [Hn|s Hs He|s o Hs He Ho Hne|s Hs He Hok]; simpl.
  - by apply get_absent.
  - apply get_absent, lookup_delete_eq.
  - erewrite get_live by eauto.
    erewrite validateUserId_mismatch by eauto. reflexivity.
  - by apply get_found.
Qed.

(** X6. The sweep is invisible to readers: after [cleanup], [get] gives
    the outcome it would have given without it and changes nothing more,
    and a [cleanup] that follows a [get] leaves the store that [cleanup]
    alone leaves. *)
Theorem cleanup_invisible_to_get now sessionId userId st :
  get ttlMs now sessionId userId (cleanup ttlMs now st).2
    = ((get ttlMs now sessionId userId st).1, (cleanup ttlMs now st).2)
  /\ (cleanup ttlMs now (get ttlMs now sessionId userId st).2).2
     = (cleanup ttlMs now st).2.
Proof.
  pose proof (cleanup_lookup ttlMs now st sessionId) as Hc.
  destruct (get_cases ttlMs now sessionId userId st)
    as [Hn|s Hs He|s o Hs He Ho Hne|s Hs He Hok]; simpl;
    rewrite ?Hn, ?Hs, ?He in Hc; split; try reflexivity.
  - by apply get_absent.
  - by apply get_absent.
  - apply map_eq. intros k. rewrite !cleanup_lookup.
    destruct (decide (k = sessionId)) as [->|Hne].
    + by rewrite lookup_delete_eq, Hs, He.
    + by rewrite lookup_delete_ne.
  - erewrite get_live by eauto.
    erewrite validateUserId_mismatch by eauto. reflexivity.
  - by apply get_found.
Qed.

(** X7. [clear] forgets everything: afterwards [count] is 0, [get] answers
    not-found for every id and caller, and [create] succeeds with the very
    first candidate id, the new session being the only record. *)
Theorem clear_resets now nanoid sessionId userId st :
  count (clear st).2 = (Returned O, (clear st).2)
  /\ get ttlMs now sessionId userId (clear st).2
     = (Returned None, (clear st).2)
  /\ create ttlMs now nanoid userId (clear st).2
     = (Returned (newSession now (nanoid O) userId),
        {[ nanoid O := newSession now (nanoid O) userId ]}).
Proof.
  simpl. split_and!.
  - reflexivity.
  - apply get_absent, lookup_empty.
  - pose proof (create_result ttlMs now nanoid userId ∅) as H.
    destruct (create ttlMs now nanoid userId ∅) as [[session|e] st'].
    + destruct H as (k & _ & _ & Hbefore & -> & ->).
      destruct k as [|k].
      * by rewrite delete_empty, insert_empty.
      * specialize (Hbefore O ltac:(lia)). unfold isLive in Hbefore.
        rewrite lookup_empty in Hbefore. discriminate.
    + destruct H as (_ & _ & Hall).
      specialize (Hall O ltac:(unfold maxAttempts; lia)).
      unfold isLive in Hall. rewrite lookup_empty in Hall. discriminate.
Qed.

(** X8. [create] adds one record when the id it picked was not in the map;
    when the id was there, the record was expired and the new session takes
    its place, the number of records staying the same. *)
Theorem create_count now nanoid userId st session st' :
  create ttlMs now nanoid userId st = (Returned session, st') ->
  (st !! Session.id session = None -> size st' = S (size st))
  /\ (forall old,
        st !! Session.id session = Some old ->
        isExpired ttlMs now old = true /\ size st' = size st).
Proof.
  intros Hc.
  pose proof (create_result ttlMs now nanoid userId st) as H.
  rewrite Hc in H. destruct H as (k & _ & Hfree & _ & -> & ->). simpl.
  rewrite map_size_insert_None by apply lookup_delete_eq.
  rewrite map_size_delete. split.
  - intros ->. reflexivity.
  - intros old Hold. unfold isLive in Hfree. rewrite Hold in *.
    split; [by apply negb_false_iff|].
    assert (size st <> O) as Hne.
    { intros Hz. apply map_size_empty_iff in Hz. subst st.
      by rewrite lookup_empty in Hold. }
    simpl. lia.
Qed.

(** *** Timestamps along a trace *)

(** The record found after one call is the record that was there, or that
    record touched at [now] with its [createdAt] kept, or a session made at
    [now]. *)
Lemma step_times now op st sessionId session' :
  step ttlMs now op st !! sessionId = Some session' ->
  st !! sessionId = Some session'
  \/ (exists session,
        st !! sessionId = Some session
        /\ Session.createdAt session' = Session.createdAt session
        /\ Session.lastModified session' = now)
  \/ (Session.createdAt session' = now
      /\ Session.lastModified session' = now).
Proof.
  intros Hl. destruct op as [nanoid u|sid u|sid upd u|sid u|sid| |];
    simpl in *.
  - pose proof (create_result ttlMs now nanoid u st) as Hc.
    destruct (create ttlMs now nanoid u st) as [[session|e] st'];
      simpl in *.
    + destruct Hc as (k & _ & _ & _ & -> & ->).
      destruct (decide (nanoid k = sessionId)) as [<-|Hne].
      * rewrite lookup_insert_eq in Hl. simplify_eq. auto.
      * rewrite lookup_insert_ne, lookup_delete_ne in Hl by done. auto.
    + destruct Hc as (_ & -> & _). auto.
  - left. destruct (get_cases ttlMs now sid u st); simpl in *; auto.
    destruct (decide (sid = sessionId)) as [->|Hne].
    + by rewrite lookup_delete_eq in Hl.
    + by rewrite lookup_delete_ne in Hl.
  - rewrite update_via_get in Hl.
    destruct (get_cases ttlMs now sid u st); simpl in *; auto.
    + left. destruct (decide (sid = sessionId)) as [->|Hne].
      * by rewrite lookup_delete_eq in Hl.
      * by rewrite lookup_delete_ne in Hl.
    + destruct (decide (sid = sessionId)) as [->|Hne].
      * rewrite lookup_insert_eq in Hl. simplify_eq. right. left. eauto.
      * rewrite lookup_insert_ne in Hl by done. auto.
  - left. rewrite delete_via_get in Hl.
    destruct (get_cases ttlMs now sid u st); simpl in *; auto;
      (destruct (decide (sid = sessionId)) as [->|Hne];
       [by rewrite lookup_delete_eq in Hl
       |by rewrite lookup_delete_ne in Hl]).
  - left. rewrite exists_spec in Hl. simpl in Hl.
    destruct (isLive ttlMs now st sid); auto.
    destruct (decide (sid = sessionId)) as [->|Hne].
    + by rewrite lookup_delete_eq in Hl.
    + by rewrite lookup_delete_ne in Hl.
  - auto.
  - left. rewrite cleanup_lookup in Hl.
    destruct (st !! sessionId) as [session|]; [|discriminate].
    destruct (isExpired ttlMs now session); simplify_eq. reflexivity.
Qed.

Lemma step_timesOrdered bound now op st :
  bound <= now ->
  timesOrdered bound st ->
  timesOrdered now (step ttlMs now op st).
Proof.
  intros Hb Hinv sessionId session' Hl.
  destruct (step_times now op st sessionId session' Hl)
    as [Hs|[(session & Hs & Hc & Hm)|[Hc Hm]]].
  - destruct (Hinv _ _ Hs). lia.
  - destruct (Hinv _ _ Hs). lia.
  - lia.
Qed.

(** X9. While the clock never goes back, every stored record keeps
    [createdAt <= lastModified], and no [lastModified] lies after the last
    clock reading: whatever the calls and their arguments, an [update]
    carrying a [lastModified] of its own included. *)
Theorem timestamps_ordered start trace st log :
  clockFrom start trace ->
  timesOrdered start st ->
  timesOrdered (lastReading start trace) (run ttlMs trace (st, log)).1.
Proof.
  revert start st log.
  induction trace as [|[now op] rest IH]; intros start st log Hclock Hinv.
  - exact Hinv.
  - destruct Hclock as [Hle Hrest]. simpl. apply IH; [exact Hrest|].
    by apply (step_timesOrdered start).
Qed.

End MoreFacts.

(** *** Concrete runs *)

Lemma created_session_readable_witness :
  get 1000 1000 "s1" (Some "u1") ownedStore
  = (Returned (Some ownedSession), ownedStore).
Proof.
  apply (created_session_readable 1000 0 1000 (fun _ => "s1") (Some "u1") ∅
           ownedSession ownedStore).
  - vm_compute. reflexivity.
  - vm_compute. discriminate.
Defined.

Lemma update_restarts_expiry_witness :
  exists session,
    anonStore !! "s1" = Some session
    /\ get 5000 5500 "s1" None
         (<["s1" := applyUpdates 900 anonSession (scratchpadOnly "x")]>
            anonStore)
       = (Returned (Some (applyUpdates 900 session (scratchpadOnly "x"))),
          <["s1" := applyUpdates 900 anonSession (scratchpadOnly "x")]>
            anonStore).
Proof.
  apply (update_restarts_expiry 5000 900 5500 "s1" (scratchpadOnly "x") None
           anonStore).
  - vm_compute. reflexivity.
  - reflexivity.
  - vm_compute. discriminate.
Defined.

Lemma delete_then_gone_witness :
  get 1000 7 "s1" (Some "u2") (base.delete "s1" ownedStore)
  = (Returned None, base.delete "s1" ownedStore).
Proof.
  apply (delete_then_gone 1000 5 7 "s1" (scratchpadOnly "x") (Some "u1")
           (Some "u2") ownedStore (base.delete "s1" ownedStore)).
  vm_compute. reflexivity.
Defined.

Lemma create_count_witness :
  size (<["s1" := newSession 5000 "s1" None]> (base.delete "s1" anonStore))
  = size anonStore.
Proof.
  apply (create_count 1000 5000 (fun _ => "s1") None anonStore
           (newSession 5000 "s1" None)
           (<["s1" := newSession 5000 "s1" None]>
              (base.delete "s1" anonStore))
           eq_refl) with (old := anonSession).
  reflexivity.
Defined.

Lemma timestamps_ordered_witness :
  let trace :=
    [ (10, Create (fun _ => "s1") None);
      (10, Update "s1" (scratchpadOnly "x") None);
      (25, Get "s1" None);
      (40, Update "s1"
             {| Updates.userId := None; Updates.scratchpad := None;
                Updates.todos := None; Updates.lastModified := Some 99 |}
             None) ] in
  timesOrdered 40 (run 1000 trace (∅, ∅)).1.
Proof.
  intros trace.
  apply (timestamps_ordered 1000 0 trace ∅ ∅).
  - simpl. lia.
  - intros sessionId session H. rewrite lookup_empty in H. discriminate.
Defined.

(** X20. Session ids stay unique: along every sequence of calls from a
    store in which each record is kept under its own id, each record is
    still kept under its own id (no call rewrites an id, whatever the
    partial fields of an [update]), and the session a further [create]
    returns has an [id] different from the [id] of every live record. *)
Theorem ids_stay_unique ttlMs trace st log now nanoid userId session st' :
  wellKeyed st ->
  create ttlMs now nanoid userId (run ttlMs trace (st, log)).1
    = (Returned session, st') ->
  wellKeyed (run ttlMs trace (st, log)).1
  /\ wellKeyed st'
  /\ (forall sessionId other,
        (run ttlMs trace (st, log)).1 !! sessionId = Some other ->
        isExpired ttlMs now other = false ->
        Session.id session <> Session.id other).
Proof.
  intros Hwf Hc.
  assert (wellKeyed (run ttlMs trace (st, log)).1) as Hrun
    by (by apply run_wellKeyed).
  split_and!; [exact Hrun| |].
  - pose proof (step_wellKeyed ttlMs now (Create nanoid userId) _ Hrun) as H.
    simpl in H. by rewrite Hc in H.
  - by apply (create_id_differs_from_live_ids ttlMs now nanoid userId _ _ st').
Qed.

Lemma ids_stay_unique_witness :
  let trace :=
    [ (0, Create (fun _ => "s1") (Some "u1"));
      (1, Update "s1" (ownerOnly None) (Some "u1")) ] in
  let nanoid := fun k => match k with O => "s1" | _ => "s2" end in
  wellKeyed (run 1000 trace (∅, ∅)).1
  /\ wellKeyed
       (<["s2" := newSession 500 "s2" None]>
          (base.delete "s2" (run 1000 trace (∅, ∅)).1))
  /\ (forall sessionId other,
        (run 1000 trace (∅, ∅)).1 !! sessionId = Some other ->
        isExpired 1000 500 other = false ->
        Session.id (newSession 500 "s2" None) <> Session.id other).
Proof.
  intros trace nanoid.
  apply (ids_stay_unique 1000 trace ∅ ∅ 500 nanoid None).
  - intros sessionId session H. rewrite lookup_empty in H. discriminate.
  - vm_compute. reflexivity.
Defined.

End StoreMoreFacts.

(** * Further properties of the TONL encoder *)
Module TonlMoreFacts.
Import Tonl TonlRest TonlFacts.

Local Arguments Ascii.eqb : simpl never.

Lemma length_app a b :
  String.length (a +:+ b) = (String.length a + String.length b)%nat.
Proof. induction a as [|x a IH]; simpl; [reflexivity | by rewrite IH]. Qed.

Lemma append_assoc (a b c : string) : (a +:+ b) +:+ c = a +:+ (b +:+ c).
Proof.
  induction a as [|x a IH]; [reflexivity|].
  change (String x ((a +:+ b) +:+ c) = String x (a +:+ (b +:+ c))).
  by rewrite IH.
Qed.

Lemma length_spaces n : String.length (spaces n) = n.
Proof. induction n as [|n IH]; simpl; [reflexivity | by rewrite IH]. Qed.

Lemma length_padEnd value width :
  String.length (padEnd value width) = Nat.max (String.length value) width.
Proof. unfold padEnd. rewrite length_app, length_spaces. lia. Qed.

Lemma length_concat sep x l :
  String.length (String.concat sep (x :: l))
  = (String.length x
     + sum_list_with (fun y => String.length sep + String.length y) l)%nat.
Proof.
  revert x. induction l as [|y l IH]; intros x.
  - simpl. lia.
  - change (String.concat sep (x :: y :: l))
      with (x +:+ sep +:+ String.concat sep (y :: l)).
    rewrite !length_app, IH. simpl. lia.
Qed.

(** *** [escapeValue]: length and fixed points *)

Lemma length_escapeUnit a :
  String.length (escapeUnit a)
  = S (specialUnits (String a EmptyString)).
Proof.
  unfold escapeUnit, specialUnits. cbn [occurrences].
  rewrite !Nat.add_0_r.
  destruct (Ascii.eqb_spec a backslash) as [->|Hb]; [reflexivity|].
  destruct (Ascii.eqb_spec a tab) as [->|Ht]; [reflexivity|].
  destruct (Ascii.eqb_spec a newline) as [->|Hn]; [reflexivity|].
  destruct (Ascii.eqb_spec a pipe) as [->|Hp]; reflexivity.
Qed.

Lemma specialUnits_cons a value :
  specialUnits (String a value)
  = (specialUnits (String a EmptyString) + specialUnits value)%nat.
Proof. unfold specialUnits. cbn [occurrences]. lia. Qed.

Lemma length_escapeValue value :
  String.length (escapeValue value)
  = (String.length value + specialUnits value)%nat.
Proof.
  induction value as [|a value IH]; [reflexivity|].
  rewrite escapeValue_cons, length_app, length_escapeUnit, IH.
  rewrite (specialUnits_cons a value). simpl. lia.
Qed.

Lemma escapeUnit_plain a :
  specialUnits (String a EmptyString) = O ->
  escapeUnit a = String a EmptyString.
Proof.
  unfold escapeUnit, specialUnits. cbn [occurrences].
  destruct (Ascii.eqb_spec a backslash) as [->|Hb]; [discriminate|].
  destruct (Ascii.eqb_spec a tab) as [->|Ht]; [discriminate|].
  destruct (Ascii.eqb_spec a newline) as [->|Hn]; [discriminate|].
  destruct (Ascii.eqb_spec a pipe) as [->|Hp]; [discriminate|].
  reflexivity.
Qed.

(** X10. [escapeValue] lengthens a value by one code unit for each
    backslash, tab, newline and pipe in it, and it returns the value
    unchanged exactly when the value has none of them. *)
Theorem escapeValue_length_and_fixed_points value :
  String.length (escapeValue value)
    = (String.length value + specialUnits value)%nat
  /\ (escapeValue value = value <-> specialUnits value = O).
Proof.
  split; [apply length_escapeValue|]. split.
  - intros H. apply (f_equal String.length) in H.
    rewrite length_escapeValue in H. lia.
  - induction value as [|a value IH]; [reflexivity|].
    rewrite specialUnits_cons. intros H.
    rewrite escapeValue_cons, escapeUnit_plain, IH by lia. reflexivity.
Qed.

(** *** [formatTags] *)

(** X11. [formatTags] always writes the tags between brackets, joined by
    commas (the empty list being no exception), and does not escape
    commas: a tag containing a comma is written exactly like the two tags
    on either side of the comma. *)
Theorem formatTags_commas :
  (forall tags, formatTags tags = "[" +:+ String.concat "," tags +:+ "]")
  /\ (forall a b rest,
        formatTags ((a +:+ "," +:+ b) :: rest) = formatTags (a :: b :: rest)).
Proof.
  split.
  - intros [|tag tags]; reflexivity.
  - intros a b rest. unfold formatTags. do 2 f_equal.
    destruct rest as [|r rest]; [reflexivity|].
    change (String.concat "," ((a +:+ "," +:+ b) :: r :: rest))
      with ((a +:+ "," +:+ b) +:+ "," +:+ String.concat "," (r :: rest)).
    change (String.concat "," (a :: b :: r :: rest))
      with (a +:+ "," +:+ b +:+ "," +:+ String.concat "," (r :: rest)).
    by rewrite !append_assoc.
Qed.

(** *** [formatDate] *)

Lemma beforeFirst_split c s :
  exists rest,
    s = beforeFirst c s +:+ rest
    /\ occurrences c (beforeFirst c s) = O
    /\ (rest = EmptyString \/ exists rest', rest = String c rest').
Proof.
  induction s as [|a s (rest & Hs & Ho & Hr)]; simpl.
  - exists EmptyString. auto.
  - destruct (Ascii.eqb_spec a c) as [->|Hne].
    + exists (String c s). simpl. eauto.
    + exists rest. split_and!; [|cbn [occurrences]|exact Hr].
      * change (String a s = String a (beforeFirst c s +:+ rest)).
        by rewrite <- Hs.
      * destruct (Ascii.eqb_spec a c); [congruence | exact Ho].
Qed.

(** X14. [encodeScratchpadToTonl] writes the content as it is, after a
    head that depends on the session id and on the length of the content
    only: for each id and length there is one head, and every content of
    that length is encoded as that head followed by the content itself. *)
Theorem scratchpad_content_verbatim sessionId n :
  exists head,
    forall content,
      String.length content = n ->
      encodeScratchpadToTonl sessionId content = head +:+ content.
Proof.
  exists ("{sessionId, contentLength, content}" +:+ lf
          +:+ ("sessionId: " +:+ sessionId) +:+ lf
          +:+ ("contentLength: " +:+ numberToString n) +:+ lf
          +:+ "content:" +:+ lf).
  intros content <-. unfold encodeScratchpadToTonl.
  cbn [String.concat]. by rewrite !append_assoc.
Qed.

Section EncoderMoreFacts.

Variable toISOString : Z -> string.

(** X12. [formatDate] returns the part of the ISO string before its first
    ["T"]: the ISO string is the result followed by nothing or by a rest
    that starts with ["T"], and the result itself has no ["T"]. *)
Theorem formatDate_before_T date :
  exists rest,
    toISOString date = formatDate toISOString date +:+ rest
    /\ occurrences "T" (formatDate toISOString date) = O
    /\ (rest = EmptyString \/ exists rest', rest = String "T" rest').
Proof. apply beforeFirst_split. Qed.

(** *** Column widths *)

Lemma init_widths_lookup (cols : list string) (w : gmap string nat) col :
  foldl (fun widths c => <[c := String.length c]> widths) w cols !! col
  = if decide (col ∈ cols) then Some (String.length col) else w !! col.
Proof.
  revert w. induction cols as [|c cols IH]; intros w; [reflexivity|].
  simpl. rewrite IH.
  destruct (decide (c = col)) as [->|Hne].
  - rewrite lookup_insert_eq.
    rewrite (decide_True (P := col ∈ col :: cols)) by (by left).
    by destruct (decide (col ∈ cols)).
  - rewrite lookup_insert_ne by done.
    destruct (decide (col ∈ cols)).
    + by rewrite decide_True by (by right).
    + rewrite decide_False; [done|].
      intros [?|?]%elem_of_cons; congruence.
Qed.

Lemma todo_widths_lookup todo (cols : list string) (w : gmap string nat) col :
  foldl
    (fun widths c =>
       let value := default "" (getTodoValues toISOString todo !! c) in
       let currentWidth := default O (widths !! c) in
       <[c := Nat.max currentWidth (String.length value)]> widths)
    w cols !! col
  = if decide (col ∈ cols)
    then Some (Nat.max (default O (w !! col))
                 (String.length (cell toISOString col todo)))
    else w !! col.
Proof.
  revert w. induction cols as [|c cols IH]; intros w; [reflexivity|].
  cbn [foldl]. rewrite IH. cbv zeta.
  destruct (decide (c = col)) as [->|Hne].
  - rewrite lookup_insert_eq.
    rewrite (decide_True (P := col ∈ col :: cols)) by (by left).
    unfold cell. destruct (decide (col ∈ cols)); simpl; f_equal; lia.
  - rewrite lookup_insert_ne by done.
    destruct (decide (col ∈ cols)).
    + by rewrite decide_True by (by right).
    + rewrite decide_False; [done|].
      intros [?|?]%elem_of_cons; congruence.
Qed.

Lemma all_widths_lookup todos (cols : list string) (w : gmap string nat) col :
  foldl
    (fun widths todo =>
       let values := getTodoValues toISOString todo in
       foldl
         (fun widths c =>
            let value := default "" (values !! c) in
            let currentWidth := default O (widths !! c) in
            <[c := Nat.max currentWidth (String.length value)]> widths)
         widths cols)
    w todos !! col
  = if decide (col ∈ cols)
    then match todos with
         | [] => w !! col
         | _ =>
           Some (foldl
                   (fun width todo =>
                      Nat.max width
                        (String.length (cell toISOString col todo)))
                   (default O (w !! col)) todos)
         end
    else w !! col.
Proof.
  revert w. induction todos as [|todo todos IH]; intros w.
  - simpl. by destruct (decide (col ∈ cols)).
  - cbn [foldl]. rewrite IH. cbv zeta. rewrite todo_widths_lookup.
    destruct (decide (col ∈ cols)); [|reflexivity].
    destruct todos; reflexivity.
Qed.

(** What [calculateColumnWidths] computes: for each of the given columns
    the widest of the header and the cells, and nothing for other keys. *)
Lemma calculateColumnWidths_lookup todos (cols : list string) col :
  calculateColumnWidths toISOString todos cols !! col
  = if decide (col ∈ cols)
    then Some (columnWidth toISOString col todos)
    else None.
Proof.
  unfold calculateColumnWidths, columnWidth. cbv zeta.
  rewrite all_widths_lookup, init_widths_lookup, lookup_empty.
  destruct (decide (col ∈ cols)); [|reflexivity].
  destruct todos; reflexivity.
Qed.

Lemma columnWidth_ge_from col todos start :
  (start <=
   foldl (fun width todo =>
            Nat.max width (String.length (cell toISOString col todo)))
     start todos)%nat.
Proof.
  revert start. induction todos as [|t todos IH]; intros start; simpl.
  - lia.
  - etrans; [|apply IH]. lia.
Qed.

Lemma columnWidth_ge_cell_from col todos todo start :
  todo ∈ todos ->
  (String.length (cell toISOString col todo) <=
   foldl (fun width t =>
            Nat.max width (String.length (cell toISOString col t)))
     start todos)%nat.
Proof.
  revert start. induction todos as [|t todos IH]; intros start Hin.
  - by apply elem_of_nil in Hin.
  - simpl. apply elem_of_cons in Hin as [->|Hin].
    + etrans; [|apply columnWidth_ge_from]. lia.
    + by apply IH.
Qed.

Lemma encodeRow_by_cells widths todo :
  encodeRow toISOString widths todo
  = String.concat "   "
      (map (fun col =>
              padEnd (cell toISOString col todo)
                (default (String.length (cell toISOString col todo))
                   (widths !! col)))
           columns).
Proof. reflexivity. Qed.

(** X13. The table is aligned: with the widths computed by
    [calculateColumnWidths] every data row of a table has the same length,
    the sum of the five column widths and of the four gaps of three spaces,
    where the width of a column is at least the length of its header and
    of each of its cells. *)
Theorem rows_aligned todos todo :
  todo ∈ todos ->
  String.length
    (encodeRow toISOString (calculateColumnWidths toISOString todos columns)
       todo)
  = (sum_list_with (fun col => columnWidth toISOString col todos) columns
     + 12)%nat
  /\ (forall col,
        (String.length col <= columnWidth toISOString col todos)%nat
        /\ (String.length (cell toISOString col todo)
            <= columnWidth toISOString col todos)%nat).
Proof.
  intros Hin.
  assert (forall col,
            (String.length col <= columnWidth toISOString col todos)%nat
            /\ (String.length (cell toISOString col todo)
                <= columnWidth toISOString col todos)%nat) as Hw.
  { intros col. split.
    - apply columnWidth_ge_from.
    - by apply columnWidth_ge_cell_from. }
  split; [|exact Hw].
  rewrite encodeRow_by_cells. unfold columns.
  cbn [map]. rewrite length_concat. cbn [sum_list_with].
  rewrite !length_padEnd.
  rewrite !calculateColumnWidths_lookup.
  repeat (rewrite decide_True by (repeat constructor)).
  cbn [default from_option]. unfold Datatypes.id.
  pose proof (Hw "id"). pose proof (Hw "title"). pose proof (Hw "status").
  pose proof (Hw "tags"). pose proof (Hw "createdAt").
  change (String.length "   ") with 3%nat.
  unfold columns in *. lia.
Qed.

(** *** The table and the description *)

Lemma cell_sameButDescription col a b :
  col ∈ columns ->
  sameButDescription a b ->
  cell toISOString col a = cell toISOString col b.
Proof.
  intros Hcol (Hid & Htitle & Htags & Hstatus & Hdate).
  unfold cell, getTodoValues. cbn [list_to_map foldr curry fst snd].
  rewrite Hid, Htitle, Htags, Hstatus, Hdate.
  unfold columns in Hcol.
  repeat (apply elem_of_cons in Hcol as [->|Hcol];
          [by repeat (rewrite ?lookup_insert_eq, ?lookup_insert_ne by done)|]).
  by apply elem_of_nil in Hcol.
Qed.

Lemma columnWidth_sameButDescription col todos todos' :
  col ∈ columns ->
  Forall2 sameButDescription todos todos' ->
  columnWidth toISOString col todos = columnWidth toISOString col todos'.
Proof.
  intros Hcol H. unfold columnWidth. generalize (String.length col).
  induction H as [|a b todos todos' Hab _ IH]; intros start; [reflexivity|].
  simpl. rewrite (cell_sameButDescription col a b) by done. apply IH.
Qed.

Lemma encodeRow_sameButDescription widths a b :
  sameButDescription a b ->
  encodeRow toISOString widths a = encodeRow toISOString widths b.
Proof.
  intros Hab. rewrite !encodeRow_by_cells. f_equal.
  apply map_ext_in. intros col Hcol%list_elem_of_In.
  by rewrite (cell_sameButDescription col a b).
Qed.

(** X15. The table never shows the description: two lists of todos that
    differ at most in their descriptions are encoded as the same table. *)
Theorem table_ignores_description todos todos' :
  Forall2 sameButDescription todos todos' ->
  encodeTodosToTonl toISOString todos = encodeTodosToTonl toISOString todos'.
Proof.
  intros H. destruct H as [|a b todos todos' Hab Hrest]; [reflexivity|].
  rewrite !encodeTodosToTonl_cons.
  assert (Forall2 sameButDescription (a :: todos) (b :: todos')) as Hall
    by (by constructor).
  assert (calculateColumnWidths toISOString (a :: todos) columns
          = calculateColumnWidths toISOString (b :: todos') columns) as ->.
  { apply map_eq. intros col. rewrite !calculateColumnWidths_lookup.
    destruct (decide (col ∈ columns)); [|reflexivity].
    f_equal. by apply columnWidth_sameButDescription. }
  rewrite (Forall2_length _ _ _ Hall). do 2 f_equal.
  generalize (calculateColumnWidths toISOString (b :: todos') columns).
  intros widths. clear -Hall.
  induction Hall as [|x y l l' Hxy _ IH]; [reflexivity|].
  simpl. by rewrite (encodeRow_sameButDescription widths x y), IH.
Qed.

End EncoderMoreFacts.

Lemma rows_aligned_witness :
  String.length
    (encodeRow isoJan18 (calculateColumnWidths isoJan18 readmeTodos columns)
       (Todo.mk "def456" "Task 2" "" [] Pending 0))
  = (sum_list_with (fun col => columnWidth isoJan18 col readmeTodos) columns
     + 12)%nat.
Proof.
  apply (rows_aligned isoJan18 readmeTodos
           (Todo.mk "def456" "Task 2" "" [] Pending 0)).
  unfold readmeTodos. repeat constructor.
Defined.

Lemma table_ignores_description_witness :
  encodeTodosToTonl isoJan18
    [Todo.mk "t1" "Title" "first description" ["a"] Pending 0]
  = encodeTodosToTonl isoJan18
      [Todo.mk "t1" "Title" "another" ["a"] Pending 0].
Proof.
  apply table_ignores_description.
  repeat constructor.
Defined.

End TonlMoreFacts.

(** * Properties of the tool handlers *)
Module ToolFacts.
Import InMemorySessionStore StoreView StoreFacts StoreMoreFacts.
Import Tonl TonlRest Encoder Tools.

Section HandlerFacts.

Variable ttlMs : Z.

Implicit Types (st : gmap string Session.t) (context : ToolContext).

Lemma readScratchpad_eq now session_id context st :
  readScratchpad ttlMs now session_id context st
  = (Returned
       match (get ttlMs now session_id (userId context) st).1 with
       | Returned (Some session) =>
         encodeScratchpad (encoder context) (Session.id session)
           (Session.scratchpad session)
       | Returned None => sessionNotFound context session_id
       | Thrown _ => userIdMismatch context
       end,
     (get ttlMs now session_id (userId context) st).2).
Proof.
  unfold readScratchpad, tryCatch, bind.
  destruct (get_cases ttlMs now session_id (userId context) st);
    reflexivity.
Qed.

Lemma writeScratchpad_eq now session_id content context st :
  writeScratchpad ttlMs now session_id content context st
  = (Returned
       match (update ttlMs now session_id (scratchpadOnly content)
                (userId context) st).1 with
       | Returned _ =>
         encodeSuccess (encoder context) "Scratchpad updated successfully"
           (Some [ ("session_id", DataString session_id);
                   ("content_length", DataNumber (String.length content)) ])
       | Thrown (SessionNotFoundError _) => sessionNotFound context session_id
       | Thrown _ => userIdMismatch context
       end,
     (update ttlMs now session_id (scratchpadOnly content)
        (userId context) st).2).
Proof.
  unfold writeScratchpad, tryCatch, bind.
  change {| Updates.userId := None; Updates.scratchpad := Some content;
            Updates.todos := None; Updates.lastModified := None |}
    with (scratchpadOnly content).
  rewrite update_via_get.
  destruct (get_cases ttlMs now session_id (userId context) st);
    reflexivity.
Qed.

(** X16. The scratchpad handlers never throw: every error of the store is
    turned into an encoded answer.  [readScratchpad] answers with the
    encoded scratchpad when [get] returns the session, with the
    session-not-found error when [get] returns nothing and with the
    mismatch error when [get] throws; [writeScratchpad] answers with the
    success message when [update] returns, and with the one or the other
    error when it throws.  Each leaves the store as the store call left
    it. *)
Theorem scratchpad_handlers_never_throw now session_id content context st :
  readScratchpad ttlMs now session_id context st
  = (Returned
       match (get ttlMs now session_id (userId context) st).1 with
       | Returned (Some session) =>
         encodeScratchpad (encoder context) (Session.id session)
           (Session.scratchpad session)
       | Returned None => sessionNotFound context session_id
       | Thrown _ => userIdMismatch context
       end,
     (get ttlMs now session_id (userId context) st).2)
  /\ (forall id,
        (get ttlMs now session_id (userId context) st).1
        <> Thrown (SessionNotFoundError id))
  /\ writeScratchpad ttlMs now session_id content context st
     = (Returned
          match (update ttlMs now session_id (scratchpadOnly content)
                   (userId context) st).1 with
          | Returned _ =>
            encodeSuccess (encoder context) "Scratchpad updated successfully"
              (Some [ ("session_id", DataString session_id);
                      ("content_length",
                       DataNumber (String.length content)) ])
          | Thrown (SessionNotFoundError _) =>
            sessionNotFound context session_id
          | Thrown _ => userIdMismatch context
          end,
        (update ttlMs now session_id (scratchpadOnly content)
           (userId context) st).2)
  /\ (forall message,
        (get ttlMs now session_id (userId context) st).1
          <> Thrown (PlainError message)
        /\ (update ttlMs now session_id (scratchpadOnly content)
              (userId context) st).1 <> Thrown (PlainError message)).
Proof.
  split_and!.
  - apply readScratchpad_eq.
  - intros id. destruct (get_cases ttlMs now session_id (userId context) st);
      simpl; congruence.
  - apply writeScratchpad_eq.
  - intros message. rewrite update_via_get.
    destruct (get_cases ttlMs now session_id (userId context) st);
      simpl; split; congruence.
Qed.

(** X17. What [writeScratchpad] wrote, [readScratchpad] reads: for a live
    session and an accepted caller the write answers with the success
    message, and a read by the same caller, at any instant up to one TTL
    after the write, answers with the encoding of exactly the written
    content, however old the session was before the write. *)
Theorem write_then_read now now' session_id content context st session :
  st !! session_id = Some session ->
  isExpired ttlMs now session = false ->
  (Session.userId session = None
   \/ Session.userId session = userId context) ->
  now' - now <= ttlMs ->
  exists st',
    writeScratchpad ttlMs now session_id content context st
    = (Returned
         (encodeSuccess (encoder context) "Scratchpad updated successfully"
            (Some [ ("session_id", DataString session_id);
                    ("content_length",
                     DataNumber (String.length content)) ])),
       st')
    /\ readScratchpad ttlMs now' session_id context st'
       = (Returned
            (encodeScratchpad (encoder context) (Session.id session) content),
          st').
Proof.
  intros Hl He Hid Hage.
  exists (<[session_id := applyUpdates now session (scratchpadOnly content)]>
            st).
  split.
  - rewrite writeScratchpad_eq, update_via_get.
    by rewrite (get_found ttlMs now session_id (userId context) st session).
  - rewrite readScratchpad_eq.
    rewrite (get_found ttlMs now' session_id (userId context) _
               (applyUpdates now session (scratchpadOnly content))).
    + reflexivity.
    + apply lookup_insert_eq.
    + by apply (isExpired_fresh ttlMs now).
    + exact Hid.
Qed.

(** X18. A session opened by [initSession] starts with an empty
    scratchpad: when [initSession] returns, its answer is the encoding of
    the new session, and [readScratchpad] by the same caller, on the new
    id and within the TTL, answers with the encoding of the empty
    content. *)
Theorem init_then_read now now' nanoid context st out st' :
  initSession ttlMs now nanoid context st = (Returned out, st') ->
  now' - now <= ttlMs ->
  exists session,
    out = encodeSession (encoder context) session
    /\ st' !! Session.id session = Some session
    /\ readScratchpad ttlMs now' (Session.id session) context st'
       = (Returned
            (encodeScratchpad (encoder context) (Session.id session) ""),
          st').
Proof.
  unfold initSession, bind. intros Hinit Hage.
  pose proof (create_result ttlMs now nanoid (userId context) st) as H.
  destruct (create ttlMs now nanoid (userId context) st)
    as [[session|e] st1]; [|discriminate].
  unfold ret in Hinit. injection Hinit as <- <-.
  destruct H as (k & _ & _ & _ & -> & ->).
  set (made := newSession now (nanoid k) (userId context)).
  exists made. split_and!; [reflexivity | apply lookup_insert_eq |].
  rewrite readScratchpad_eq.
  rewrite (get_found ttlMs now' (nanoid k) (userId context) _ made).
  - reflexivity.
  - apply lookup_insert_eq.
  - by apply (isExpired_fresh ttlMs now).
  - simpl. destruct (userId context); auto.
Qed.

End HandlerFacts.

(** X19. With the TONL encoder the two errors of a handler can always be
    told apart: whatever the session id, the answer for a missing or
    expired session differs from the answer for a refused caller. *)
Theorem tonl_errors_distinct toISOString caller session_id :
  let context := {| encoder := tonlEncoder toISOString; userId := caller |} in
  sessionNotFound context session_id <> userIdMismatch context.
Proof.
  intros context H. unfold sessionNotFound, userIdMismatch in H.
  simpl in H. discriminate H.
Qed.

Lemma write_then_read_witness :
  let context := {| encoder := tonlEncoder isoJan18; userId := Some "u1" |} in
  exists st',
    writeScratchpad 5000 900 "s1" "notes" context ownedStore
    = (Returned
         (encodeSuccess (encoder context) "Scratchpad updated successfully"
            (Some [ ("session_id", DataString "s1");
                    ("content_length", DataNumber 5) ])),
       st')
    /\ readScratchpad 5000 5500 "s1" context st'
       = (Returned (encodeScratchpadToTonl "s1" "notes"), st').
Proof.
  intros context.
  apply (write_then_read 5000 900 5500 "s1" "notes" context ownedStore
           ownedSession).
  - reflexivity.
  - reflexivity.
  - right. reflexivity.
  - vm_compute. discriminate.
Defined.

Lemma init_then_read_witness :
  let context := {| encoder := tonlEncoder isoJan18; userId := None |} in
  let st' : gmap string Session.t := {[ "s9" := newSession 10 "s9" None ]} in
  exists session,
    encodeSessionToTonl isoJan18 (newSession 10 "s9" None)
    = encodeSession (encoder context) session
    /\ st' !! Session.id session = Some session
    /\ readScratchpad 1000 20 (Session.id session) context st'
       = (Returned (encodeScratchpad (encoder context) (Session.id session) ""),
          st').
Proof.
  intros context st'.
  apply (init_then_read 1000 10 20 (fun _ => "s9") context ∅).
  - vm_compute. reflexivity.
  - vm_compute. discriminate.
Defined.

(** *** The scenarios of the handler tests, in TONL *)

Example read_empty_scratchpad :
  (readScratchpad 3600000 1 "s1"
     {| encoder := tonlEncoder isoJan18; userId := None |} anonStore).1
  = Returned ("{sessionId, contentLength, content}" +:+ lf
              +:+ "sessionId: s1" +:+ lf
              +:+ "contentLength: 0" +:+ lf
              +:+ "content:" +:+ lf).
Proof. vm_compute. reflexivity. Qed.

Example read_missing_session :
  (readScratchpad 3600000 1 "non-existent"
     {| encoder := tonlEncoder isoJan18; userId := None |} anonStore).1
  = Returned ("{error, code}" +:+ lf
              +:+ "error: Session not found: non-existent" +:+ lf
              +:+ "code: SESSION_NOT_FOUND").
Proof. vm_compute. reflexivity. Qed.

Example write_wrong_user :
  writeScratchpad 3600000 1 "s1" "x"
    {| encoder := tonlEncoder isoJan18; userId := Some "wrong-user" |}
    ownedStore
  = (Returned ("{error, code}" +:+ lf
               +:+ "error: User ID mismatch - access denied" +:+ lf
               +:+ "code: USER_ID_MISMATCH"),
     ownedStore).
Proof. vm_compute. reflexivity. Qed.

Example write_success :
  (writeScratchpad 3600000 1 "s1" "New content"
     {| encoder := tonlEncoder isoJan18; userId := None |} anonStore).1
  = Returned ("{success, message}" +:+ lf
              +:+ "success: true" +:+ lf
              +:+ "message: Scratchpad updated successfully" +:+ lf
              +:+ "session_id: s1" +:+ lf
              +:+ "content_length: 11").
Proof. vm_compute. reflexivity. Qed.

End ToolFacts.

(** * Identity binding and the owner given at creation *)
Module BindingFacts.
Import InMemorySessionStore StoreView StoreTrace StoreFacts.

(** C2 (amended). In a store reached by calls none of which is an
    [update] carrying the key [userId], every live session is bound as it
    was created: if its id was created with an owner, [get], [update] and
    [delete] throw [UserIdMismatchError] exactly when the caller's identity
    is absent or differs from that owner, and succeed when it is that
    owner; if it was created without an owner, they succeed for every
    caller identity, none included, and [get] returns the same record,
    leaving the store as it is, whatever identity is supplied. *)
Theorem identity_binding_as_created ttlMs trace st log now sessionId updates
    session :
  Forall (fun call => suppliesUserId call.2 = false) trace ->
  boundAsCreated st log ->
  (run ttlMs trace (st, log)).1 !! sessionId = Some session ->
  isExpired ttlMs now session = false ->
  (forall owner userId,
     (run ttlMs trace (st, log)).2 !! sessionId = Some (Some owner) ->
     (userId <> Some owner ->
      (get ttlMs now sessionId userId (run ttlMs trace (st, log)).1).1
        = Thrown (UserIdMismatchError (Session.id session))
      /\ (update ttlMs now sessionId updates userId
            (run ttlMs trace (st, log)).1).1
        = Thrown (UserIdMismatchError (Session.id session))
      /\ (InMemorySessionStore.delete ttlMs now sessionId userId
            (run ttlMs trace (st, log)).1).1
        = Thrown (UserIdMismatchError (Session.id session)))
     /\ (userId = Some owner ->
         (get ttlMs now sessionId userId (run ttlMs trace (st, log)).1).1
           = Returned (Some session)
         /\ (update ttlMs now sessionId updates userId
               (run ttlMs trace (st, log)).1).1 = Returned tt
         /\ (InMemorySessionStore.delete ttlMs now sessionId userId
               (run ttlMs trace (st, log)).1).1 = Returned tt))
  /\ ((run ttlMs trace (st, log)).2 !! sessionId = Some None ->
      forall userId,
        get ttlMs now sessionId userId (run ttlMs trace (st, log)).1
          = (Returned (Some session), (run ttlMs trace (st, log)).1)
        /\ (update ttlMs now sessionId updates userId
              (run ttlMs trace (st, log)).1).1 = Returned tt
        /\ (InMemorySessionStore.delete ttlMs now sessionId userId
              (run ttlMs trace (st, log)).1).1 = Returned tt).
Proof.
  intros Htrace Hinv Hl He.
  assert (boundAsCreated (run ttlMs trace (st, log)).1
            (run ttlMs trace (st, log)).2) as Hbound.
  { clear Hl He. revert st log Hinv.
    induction Htrace as [|[t op] rest Hop _ IH]; intros st log Hinv.
    - exact Hinv.
    - simpl. apply IH. by apply step_boundAsCreated. }
  specialize (Hbound sessionId session Hl).
  destruct (identity_binding_enforced ttlMs now sessionId updates
              (run ttlMs trace (st, log)).1 session Hl He)
    as [Howned Hfree].
  split.
  - intros owner userId Hcreated. apply Howned. congruence.
  - intros Hcreated. apply Hfree. congruence.
Qed.

Lemma identity_binding_as_created_witness :
  let trace :=
    [ (0, Create (fun _ => "s1") (Some "u1"));
      (1, Update "s1" (scratchpadOnly "x") (Some "u1")) ] in
  let session := applyUpdates 1 ownedSession (scratchpadOnly "x") in
  (get 1000 2 "s1" None (run 1000 trace (∅, ∅)).1).1
  = Thrown (UserIdMismatchError "s1")
  /\ (get 1000 2 "s1" (Some "u2") (run 1000 trace (∅, ∅)).1).1
     = Thrown (UserIdMismatchError "s1")
  /\ (get 1000 2 "s1" (Some "u1") (run 1000 trace (∅, ∅)).1).1
     = Returned (Some session).
Proof.
  intros trace session.
  assert (boundAsCreated ∅ ∅) as Hempty.
  { intros sessionId s H. rewrite lookup_empty in H. discriminate. }
  assert (Forall (fun call : Z * Op => suppliesUserId call.2 = false) trace)
    as Htrace by repeat constructor.
  destruct (identity_binding_as_created 1000 trace ∅ ∅ 2 "s1"
              (scratchpadOnly "y") session Htrace Hempty)
    as [Howned _].
  - vm_compute. reflexivity.
  - reflexivity.
  - assert ((run 1000 trace (∅, ∅)).2 !! "s1" = Some (Some "u1")) as Hlog
      by (vm_compute; reflexivity).
    split_and!.
    + apply (Howned "u1" None Hlog). discriminate.
    + apply (Howned "u1" (Some "u2") Hlog). discriminate.
    + apply (Howned "u1" (Some "u1") Hlog). reflexivity.
Defined.

(** C2, the claim as stated fails: a session created without an owner,
    once an [update] has carried [userId], refuses the caller without
    identity (and every caller but the new owner) in [get], [update] and
    [delete]. *)
Lemma ownerless_session_refuses_after_rebind :
  let trace :=
    [ (0, Create (fun _ => "s1") None);
      (1, Update "s1" (ownerOnly (Some "u2")) None) ] in
  let c := run 1000 trace (∅, ∅) in
  c.2 !! "s1" = Some None
  /\ isLive 1000 2 c.1 "s1" = true
  /\ (get 1000 2 "s1" None c.1).1 = Thrown (UserIdMismatchError "s1")
  /\ (update 1000 2 "s1" (scratchpadOnly "x") None c.1).1
     = Thrown (UserIdMismatchError "s1")
  /\ (InMemorySessionStore.delete 1000 2 "s1" (Some "u1") c.1).1
     = Thrown (UserIdMismatchError "s1").
Proof. simpl. split_and!; vm_compute; reflexivity. Qed.

End BindingFacts.
